(** * SHICoPIC: the proxy relay of [Netlify/functions/enhance-prompt.js]

    A shallow embedding of the serverless function: its numeric
    configuration, the process-wide selector cursor and health map, the
    round-robin picker [pickNextProxy], [markProxyDown], and the retry loop
    of [exports.handler].

    Conventions of the embedding.
    - JavaScript numbers that the function computes with are integers
      (millisecond timestamps, status codes, counters) or [NaN] (what
      [Number] gives for a non-numeric string); they are the type [jsnum].
      Integers are exact, as doubles are below 2^53.
    - The module-level [let proxyIndex] and [const proxyHealth] are the
      fields of [State]; every function that touches them is a computation
      in the state monad [Gw].
    - [Date.now()] and the remote end of [fetch] are the environment: the
      k-th reading of the clock is [clock k], the answer to the k-th fetch
      is [upstream k request].  [State] counts the readings and the fetches.
    - One invocation of the handler runs alone: nothing else touches the
      cursor or the health map between its awaits. *)

From stdpp Require Import base gmap list strings.
From Stdlib Require Import ZArith Lia Ascii.

Local Open Scope Z_scope.

(** * The program *)

Module Relay.

(** ** JavaScript numbers *)

Inductive jsnum : Type :=
| Num (z : Z)
| NaN.

Global Instance jsnum_eq_dec : EqDecision jsnum.
Proof. solve_decision. Defined.

(** [a + b], [a * b]: [NaN] is absorbing. *)
Definition num_add (a b : jsnum) : jsnum :=
  match a, b with
  | Num x, Num y => Num (x + y)
  | _, _ => NaN
  end.

Definition num_mul (a b : jsnum) : jsnum :=
  match a, b with
  | Num x, Num y => Num (x * y)
  | _, _ => NaN
  end.

(** [a < b] and [a <= b]: every comparison with [NaN] is false. *)
Definition num_lt (a b : jsnum) : bool :=
  match a, b with
  | Num x, Num y => x <? y
  | _, _ => false
  end.

Definition num_le (a b : jsnum) : bool :=
  match a, b with
  | Num x, Num y => x <=? y
  | _, _ => false
  end.

(** [a || 0] on a number: the falsy numbers are [0], which [0] replaces
    without change, and [NaN]. *)
Definition num_or0 (a : jsnum) : jsnum :=
  match a with
  | Num z => Num z
  | NaN => Num 0
  end.

(** [Math.pow(2, attempt)] for a loop counter [attempt >= 0]. *)
Definition pow2 (attempt : Z) : jsnum := Num (2 ^ attempt).

(** ** [Number(s)] on a string

    The fragment that is modelled: ASCII white space is trimmed; the empty
    string is [0]; an optionally signed run of decimal digits is that
    integer (exact up to 2^53); a string whose first character is ASCII and
    cannot begin any numeric literal (not a digit, sign, dot or the [I] of
    [Infinity]) is [NaN].  Other strings (fractions, exponents, radix
    prefixes, [Infinity], non-ASCII white space) are outside the fragment:
    [None]. *)

Definition code (c : Ascii.ascii) : Z := Z.of_N (Ascii.N_of_ascii c).

Definition is_ws (c : Ascii.ascii) : bool :=
  let n := code c in ((9 <=? n) && (n <=? 13)) || (n =? 32).

Definition digit_of (c : Ascii.ascii) : option Z :=
  let n := code c in
  if (48 <=? n) && (n <=? 57) then Some (n - 48) else None.

Fixpoint trim_left (s : string) : string :=
  match s with
  | String c t => if is_ws c then trim_left t else s
  | EmptyString => EmptyString
  end.

Fixpoint trim_right (s : string) : string :=
  match s with
  | String c t =>
      match trim_right t with
      | EmptyString => if is_ws c then EmptyString else String c EmptyString
      | t' => String c t'
      end
  | EmptyString => EmptyString
  end.

Definition trim (s : string) : string := trim_right (trim_left s).

(** Value of a non-empty run of decimal digits, most significant first. *)
Fixpoint digits_from (acc : Z) (s : string) : option Z :=
  match s with
  | EmptyString => Some acc
  | String c t =>
      match digit_of c with
      | Some d => digits_from (10 * acc + d) t
      | None => None
      end
  end.

Definition unsigned_int (s : string) : option Z :=
  match s with
  | EmptyString => None
  | _ => digits_from 0 s
  end.

Definition signed_int (s : string) : option Z :=
  match s with
  | String "+"%char t => unsigned_int t
  | String "-"%char t => Z.opp <$> unsigned_int t
  | _ => unsigned_int s
  end.

Definition can_begin_literal (c : Ascii.ascii) : bool :=
  let n := code c in
  (128 <=? n) || ((48 <=? n) && (n <=? 57))
  || (n =? 43) || (n =? 45) || (n =? 46) || (n =? 73).

Definition Number_of_string (s : string) : option jsnum :=
  match trim s with
  | EmptyString => Some (Num 0)
  | String c _ as t =>
      match signed_int t with
      | Some z => if Z.abs z <=? 2 ^ 53 then Some (Num z) else None
      | None => if can_begin_literal c then None else Some NaN
      end
  end.

(** ** Configuration

    [process.env] is a finite map from names to strings.
    [Number(process.env.X || dflt)]: an unset variable is [undefined] and an
    empty one is [''], both falsy, so [dflt] is converted; any other string
    is converted itself. *)

Definition env_number (env : gmap string string) (name : string) (dflt : Z)
  : option jsnum :=
  match env !! name with
  | None | Some EmptyString => Some (Num dflt)
  | Some s => Number_of_string s
  end.

Record Config : Type := {
  REQUEST_TIMEOUT_MS : jsnum;
  MAX_RETRIES : jsnum;
  BACKOFF_BASE_MS : jsnum;
  PROXY_MARK_DOWN_MS : jsnum
}.

(** Lines 47-50.  [None] when one of the four strings is outside the
    modelled fragment of [Number]. *)
Definition load_config (env : gmap string string) : option Config :=
  t ← env_number env "REQUEST_TIMEOUT_MS" 20000;
  r ← env_number env "MAX_RETRIES" 4;
  b ← env_number env "BACKOFF_BASE_MS" 400;
  d ← env_number env "PROXY_MARK_DOWN_MS" 45000;
  Some {| REQUEST_TIMEOUT_MS := t; MAX_RETRIES := r;
          BACKOFF_BASE_MS := b; PROXY_MARK_DOWN_MS := d |}.

(** How the value [v] of one numeric setting relates to the environment:
    the default when the variable is unset or empty, else [Number] of the
    supplied string. *)
Definition configured (env : gmap string string) (name : string) (dflt : Z)
    (v : jsnum) : Prop :=
  match env !! name with
  | None | Some EmptyString => v = Num dflt
  | Some s => Number_of_string s = Some v
  end.

Definition default_config : Config :=
  {| REQUEST_TIMEOUT_MS := Num 20000; MAX_RETRIES := Num 4;
     BACKOFF_BASE_MS := Num 400; PROXY_MARK_DOWN_MS := Num 45000 |}.

Definition DEFAULT_PROXIES : list string :=
  [ "https://cors.bridged.cc/";
    "https://api.allorigins.win/raw?url=";
    "https://api.allorigins.cf/raw?url=";
    "https://thingproxy.freeboard.io/fetch/";
    "https://api.codetabs.cn/proxy?quest=";
    "https://cors-anywhere.herokuapp.com/";
    "https://proxy.cors.sh/";
    "https://yacdn.org/proxy/" ]%string.

(** Lines 43-45: an empty configured list is replaced by the built-in one. *)
Definition pool_or_default (configured : list string) : list string :=
  match configured with
  | [] => DEFAULT_PROXIES
  | _ => configured
  end.

(** ** Data exchanged with the outside *)

(** JSON documents: what [JSON.parse] yields and [JSON.stringify] takes.
    Numbers are the integers the handler itself produces (status, latency,
    attempt). *)
#[local] Set Warnings "-register-all".
Inductive JValue : Type :=
| JNull
| JBool (b : bool)
| JNumber (z : Z)
| JString (s : string)
| JArray (items : list JValue)
| JObject (fields : list (string * JValue)).

(** The [body] option given to [fetch] (line 127): the text
    [JSON.stringify(v)] when [reqBody] is truthy and of type ['object'] (an
    array or an object), else the payload's value passed through unchanged
    ([None] is [undefined]). *)
Inductive FetchBody : Type :=
| Stringified (v : JValue)
| Passed (v : option JValue).

Record Request : Type := {
  url : string;
  fetch_method : string;
  fetch_headers : list (string * string);
  fetch_body : FetchBody
}.

(** A promise that resolves to a value or rejects with an error message. *)
Inductive Settled (A : Type) : Type :=
| Resolved (a : A)
| Rejected (message : string).
Arguments Resolved {A} a.
Arguments Rejected {A} message.

(** What the handler reads of a node-fetch response: [res.status],
    [res.headers.get('content-type')], [res.text()] and [res.json()]. *)
Record Reply : Type := {
  status : Z;
  content_type : option string;
  text : Settled string;
  json : Settled JValue
}.

(** [res.ok] *)
Definition ok (res : Reply) : bool :=
  (200 <=? status res) && (status res <=? 299).

(** What one handler invocation does to the outside, in order. *)
Inductive Effect : Type :=
| Fetched (proxy : option string) (req : Request)
| Slept (ms : jsnum).

(** The parsed inbound body, [JSON.parse(event.body || '{}')] destructured
    at line 105.  [targetUrl] and [method] are strings when present and
    [headers] a string map, the documented shape of the payload; a field
    that is absent ([undefined]) is [None]. *)
Record Payload : Type := {
  targetUrl : option string;
  method : option string;
  payload_headers : option (list (string * string));
  payload_body : option JValue
}.

(** [Unusable e]: [JSON.parse] throws, or yields [null] so that the
    destructuring throws; [e] is [String] of the exception.  An absent or
    empty [event.body] parses as ['{}']: a payload without any field. *)
Inductive EventBody : Type :=
| Unusable (e : string)
| Parsed (p : Payload).

Record Event : Type := {
  httpMethod : string;
  event_body : EventBody
}.

(** The [body] of a response.  [TextBody s] is the string [s] itself (the
    preflight answers with the empty string); [JsonBody v] is the text
    [JSON.stringify(v)], which for an object [v] begins with a brace. *)
Inductive ResponseBody : Type :=
| TextBody (s : string)
| JsonBody (v : JValue).

(** A response without a [headers] property has [headers = []]. *)
Record Response : Type := {
  statusCode : Z;
  headers : list (string * string);
  body : ResponseBody
}.

(** ** Process-wide state *)

Record State : Type := {
  proxyIndex : Z;                       (* let proxyIndex = -1 *)
  proxyHealth : gmap string jsnum;      (* proxyUrl -> downUntil *)
  reads : nat;                          (* clock readings so far *)
  fetches : nat;                        (* fetch calls so far *)
  trace : list Effect                   (* effects so far, oldest first *)
}.

Definition initial_state : State :=
  {| proxyIndex := -1; proxyHealth := ∅; reads := 0; fetches := 0;
     trace := [] |}.

Definition with_index (i : Z) (s : State) : State :=
  {| proxyIndex := i; proxyHealth := proxyHealth s; reads := reads s;
     fetches := fetches s; trace := trace s |}.

Definition with_health (h : gmap string jsnum) (s : State) : State :=
  {| proxyIndex := proxyIndex s; proxyHealth := h; reads := reads s;
     fetches := fetches s; trace := trace s |}.

Definition with_reads (r : nat) (s : State) : State :=
  {| proxyIndex := proxyIndex s; proxyHealth := proxyHealth s; reads := r;
     fetches := fetches s; trace := trace s |}.

Definition with_effect (f : nat) (e : Effect) (s : State) : State :=
  {| proxyIndex := proxyIndex s; proxyHealth := proxyHealth s;
     reads := reads s; fetches := f; trace := trace s ++ [e] |}.

(** The test of line 65 for proxy [p] when the clock shows [t]. *)
Definition healthy_at (h : gmap string jsnum) (t : Z) (p : string) : bool :=
  match h !! p with
  | None => true
  | Some downUntil => num_le (num_or0 downUntil) (Num t)
  end.

(** How many proxies of [l] pass that test at time [t]. *)
Fixpoint healthy_count (h : gmap string jsnum) (t : Z) (l : list string)
  : nat :=
  match l with
  | [] => O
  | q :: l' => ((if healthy_at h t q then 1 else 0) + healthy_count h t l')%nat
  end.

(** ** Small helpers of the handler *)

(** [hay.includes(needle)] *)
Fixpoint includes (needle hay : string) : bool :=
  String.prefix needle hay ||
  match hay with
  | String _ rest => includes needle rest
  | EmptyString => false
  end.

(** [proxy || null]: [null], [undefined] and [''] are falsy. *)
Definition or_null (proxy : option string) : option string :=
  match proxy with
  | Some (String _ _ as p) => Some p
  | _ => None
  end.

Definition json_of_proxy (used : option string) : JValue :=
  match used with
  | Some p => JString p
  | None => JNull
  end.

Definition json_cors : list (string * string) :=
  [ ("Content-Type", "application/json");
    ("Access-Control-Allow-Origin", "*") ]%string.

Definition preflight_headers : list (string * string) :=
  [ ("Access-Control-Allow-Origin", "*");
    ("Access-Control-Allow-Methods", "POST,OPTIONS");
    ("Access-Control-Allow-Headers", "Content-Type") ]%string.

Definition is_5xx (st : Z) : bool := (500 <=? st) && (st <? 600).

(** How often the test [attempt < MAX_RETRIES] of line 112 succeeds when
    [attempt] counts up from [0]. *)
Definition iterations (max : jsnum) : nat :=
  match max with
  | Num m => Z.to_nat m
  | NaN => O
  end.

(** The state monad of the module's functions. *)
Definition Gw (A : Type) : Type := State → A * State.

Global Instance Gw_ret : MRet Gw := λ A a s, (a, s).
Global Instance Gw_bind : MBind Gw :=
  λ A B k m s, let '(a, s') := m s in k a s'.

Definition modify (f : State → State) : Gw unit := λ s, (tt, f s).

Section Gateway.

Variable PROXIES : list string.
Variable cfg : Config.
Variable clock : nat → Z.
Variable upstream : nat → Request → Settled Reply.

(** [Date.now()] *)
Definition now : Gw Z :=
  λ s, (clock (reads s), with_reads (S (reads s)) s).

(** [PROXIES[i]]; [undefined] out of range. *)
Definition entry (i : Z) : option string :=
  if i <? 0 then None else PROXIES !! Z.to_nat i.

(** [!st || (st.downUntil || 0) <= now()]: the clock is read only when
    the proxy has a record. *)
Definition is_up (candidate : string) : Gw bool :=
  λ s, match proxyHealth s !! candidate with
       | None => (true, s)
       | Some downUntil =>
           (t ← now; mret (num_le (num_or0 downUntil) (Num t))) s
       end.

(** The [for] loop of lines 61-68 with [k] iterations left.  The index
    stays within the pool (lemma [pick_loop_spec]), so the [None] of
    [entry] is never met. *)
Fixpoint pick_loop (k : nat) : Gw (option string) :=
  match k with
  | O => mret None
  | S k' =>
      λ s,
        let i := Z.rem (proxyIndex s + 1) (Z.of_nat (length PROXIES)) in
        let s1 := with_index i s in
        match entry i with
        | None => (None, s1)
        | Some candidate =>
            (up ← is_up candidate;
             if up : bool then mret (Some candidate) else pick_loop k') s1
        end
  end.

Definition pickNextProxy : Gw (option string) :=
  match length PROXIES with
  | O => mret None
  | n => pick_loop n
  end.

(** [proxyHealth[proxyUrl] = { downUntil: now() + PROXY_MARK_DOWN_MS }] *)
Definition markProxyDown (proxyUrl : string) : Gw unit :=
  t ← now;
  modify (λ s, with_health
                 (<[proxyUrl := num_add (Num t) (PROXY_MARK_DOWN_MS cfg)]>
                    (proxyHealth s)) s).

(** [fetchWithTimeout(finalUrl, fetchOpts, REQUEST_TIMEOUT_MS)]: the race
    of [fetch] against the timer settles as [upstream] says; the timer
    winning is [Rejected "timeout"].  [proxy] is recorded with the call. *)
Definition fetchWithTimeout (proxy : option string) (req : Request)
  : Gw (Settled Reply) :=
  λ s, (upstream (fetches s) req,
        with_effect (S (fetches s)) (Fetched proxy req) s).

(** [await new Promise(r => setTimeout(r, ms))] *)
Definition sleep (ms : jsnum) : Gw unit :=
  modify (λ s, with_effect (fetches s) (Slept ms) s).

Definition backoff (attempt : Z) : jsnum :=
  num_mul (BACKOFF_BASE_MS cfg) (pow2 attempt).

Definition exhausted (lastError : JValue) : Response :=
  {| statusCode := 502;
     body := JsonBody (JObject [ ("error", JString "All attempts failed");
                                 ("lastError", lastError) ]%string);
     headers := json_cors |}.

Definition upstream_error (st : Z) (txt : string) : Response :=
  {| statusCode := st;
     body := JsonBody (JObject [ ("error", JString "Upstream returned error");
                                 ("details", JString txt) ]%string);
     headers := json_cors |}.

Definition success (used : option string) (latency : Z) (data : JValue)
  : Response :=
  {| statusCode := 200;
     body := JsonBody (JObject [ ("success", JBool true);
                                 ("proxy", json_of_proxy used);
                                 ("latency", JNumber latency);
                                 ("data", data) ]%string);
     headers := json_cors |}.

Definition error_of_response (st : Z) (txt : string) (used : option string)
    (latency : Z) : JValue :=
  JObject [ ("status", JNumber st); ("text", JString txt);
            ("proxy", json_of_proxy used);
            ("latency", JNumber latency) ]%string.

Definition error_of_exception (message : string) (used : option string)
    (attempt : Z) : JValue :=
  JObject [ ("error", JString message); ("proxy", json_of_proxy used);
            ("attempt", JNumber attempt) ]%string.

Definition request_for (p : Payload) (target : string)
    (used : option string) : Request :=
  {| url := match used with
            | Some proxy => proxy +:+ target
            | None => target
            end;
     fetch_method := default "POST"%string (method p);
     fetch_headers := default [] (payload_headers p);
     fetch_body := match payload_body p with
                   | Some (JArray _ as v) | Some (JObject _ as v) =>
                       Stringified v
                   | reqBody => Passed reqBody
                   end |}.

(** [await res.text().catch(()=>'<no body>')] *)
Definition body_text (res : Reply) : string :=
  match text res with
  | Resolved t => t
  | Rejected _ => "<no body>"%string
  end.

(** The two ways back to the head of the loop; [next] is the loop at
    [attempt + 1].  [again]: lines 143-144 and 179-180, wait and continue.
    [caught]: the [catch] block of lines 173-181. *)
Definition again (attempt : Z) (next : JValue → Gw Response)
    (lastError : JValue) : Gw Response :=
  sleep (backoff attempt);;
  next lastError.

(** [if (useProxy) { markProxyDown(proxy); }] *)
Definition mark_if_used (used : option string) : Gw unit :=
  match used with
  | Some proxy => markProxyDown proxy
  | None => mret tt
  end.

Definition caught (used : option string) (attempt : Z)
    (next : JValue → Gw Response) (message : string) : Gw Response :=
  mark_if_used used;;
  again attempt next (error_of_exception message used attempt).

(** What follows a settled [fetchWithTimeout] within one iteration. *)
Definition settle (used : option string) (attempt start : Z)
    (next : JValue → Gw Response) (outcome : Settled Reply)
  : Gw Response :=
  match outcome with
  | Rejected message => caught used attempt next message
  | Resolved res =>
      finish ← now;
      let latency := finish - start in
      if negb (ok res) then
        let lastError :=
          error_of_response (status res) (body_text res) used latency in
        match used with
        | Some proxy =>
            if is_5xx (status res)
            then markProxyDown proxy;; again attempt next lastError
            else mret (upstream_error (status res) (body_text res))
        | None => mret (upstream_error (status res) (body_text res))
        end
      else if includes "application/json"
                (default EmptyString (content_type res)) then
        match json res with
        | Resolved responseBody => mret (success used latency responseBody)
        | Rejected message => caught used attempt next message
        end
      else
        match text res with
        | Resolved t => mret (success used latency (JString t))
        | Rejected message => caught used attempt next message
        end
  end.

(** The [for] loop of lines 112-182 with [remaining] iterations left:
    [remaining] is [0] exactly when [attempt < MAX_RETRIES] fails (lemma
    [iterations_guard]). *)
Fixpoint retry_loop (p : Payload) (target : string) (remaining : nat)
    (attempt : Z) (lastError : JValue) : Gw Response :=
  match remaining with
  | O => mret (exhausted lastError)
  | S remaining' =>
      proxy ← pickNextProxy;
      let used := or_null proxy in
      start ← now;
      outcome ← fetchWithTimeout used (request_for p target used);
      settle used attempt start
        (retry_loop p target remaining' (attempt + 1)) outcome
  end.

Definition handler (event : Event) : Gw Response :=
  if String.eqb (httpMethod event) "OPTIONS" then
    mret {| statusCode := 204; headers := preflight_headers;
            body := TextBody EmptyString |}
  else if negb (String.eqb (httpMethod event) "POST") then
    mret {| statusCode := 405; headers := [];
            body := JsonBody (JObject [ ("error",
                                         JString "Only POST allowed") ]%string) |}
  else
    match event_body event with
    | Unusable e =>
        mret {| statusCode := 500; headers := json_cors;
                body := JsonBody (JObject [ ("error",
                                             JString "Internal server error");
                                            ("message", JString e) ]%string) |}
    | Parsed p =>
        match targetUrl p with
        | None | Some EmptyString =>
            mret {| statusCode := 400; headers := [];
                    body := JsonBody (JObject [ ("error",
                                                 JString "targetUrl required")
                                              ]%string) |}
        | Some target =>
            retry_loop p target (iterations (MAX_RETRIES cfg)) 0 JNull
        end
    end.

(** *** Vocabulary of the statements *)

(** The cursor points into the pool, or is the initial [-1]. *)
Definition in_pool (s : State) : Prop :=
  -1 ≤ proxyIndex s < Z.of_nat (length PROXIES).

(** The candidate that the picker examines [o] iterations from now. *)
Definition cand (s : State) (o : nat) : option string :=
  PROXIES !! Z.to_nat ((proxyIndex s + 1 + Z.of_nat o)
                         `mod` Z.of_nat (length PROXIES)).

(** The pool in the order in which the picker examines it from [s]. *)
Definition rotation (s : State) : list string :=
  rotate (Z.to_nat (proxyIndex s + 1)) PROXIES.

(** [k] consecutive calls of [pickNextProxy], results in order. *)
Fixpoint pick_many (k : nat) : Gw (list (option string)) :=
  match k with
  | O => mret []
  | S k' =>
      p ← pickNextProxy;
      ps ← pick_many k';
      mret (p :: ps)
  end.

(** A 2xx response whose body cannot be read the way the handler reads it:
    [res.json()] rejects when JSON is declared, [res.text()] otherwise. *)
Definition unreadable_2xx (res : Reply) (message : string) : Prop :=
  ok res = true ∧
  if includes "application/json" (default EmptyString (content_type res))
  then json res = Rejected message
  else text res = Rejected message.

(** A response with a JSON body and the two headers of lines 151, 162,
    169, 187 and 195. *)
Definition json_with_cors (resp : Response) : Prop :=
  headers resp = json_cors ∧ ∃ v, body resp = JsonBody v.

(** An inbound request that is not a POST, and a POST without [targetUrl]. *)
Definition get_event : Event :=
  {| httpMethod := "GET";
     event_body := Parsed {| targetUrl := None; method := None;
                             payload_headers := None;
                             payload_body := None |} |}.

Definition post_without_target : Event :=
  {| httpMethod := "POST";
     event_body := Parsed {| targetUrl := None; method := None;
                             payload_headers := None;
                             payload_body := None |} |}.

(** The effects of consecutive attempts that all go back to the head of the
    loop: a fetch through the selected proxy (or none), then the wait. *)
Fixpoint retried (p : Payload) (target : string)
    (selected : list (option string)) (attempt : Z) : list Effect :=
  match selected with
  | [] => []
  | used :: rest =>
      Fetched used (request_for p target used)
        :: Slept (backoff attempt)
        :: retried p target rest (attempt + 1)
  end.

(** A POST whose body parses to a payload with a non-empty [targetUrl]. *)
Definition relays (event : Event) (p : Payload) (target : string) : Prop :=
  httpMethod event = "POST"%string ∧ event_body event = Parsed p ∧
  targetUrl p = Some target ∧ target ≠ EmptyString.

(** What the module does to the process-wide state, one primitive at a
    time; a run of the handler is a sequence of these (lemma
    [handler_steps]). *)
Inductive prim (s : State) : State → Prop :=
| prim_pick : prim s (pickNextProxy s).2
| prim_mark (proxyUrl : string) : prim s (markProxyDown proxyUrl s).2
| prim_now : prim s (now s).2
| prim_fetch (used : option string) (req : Request) :
    prim s (fetchWithTimeout used req s).2
| prim_sleep (ms : jsnum) : prim s (sleep ms s).2.

(** Every record of the health map was written by [markProxyDown] at a
    reading of the clock already made. *)
Definition records_sound (s : State) : Prop :=
  ∀ q downUntil, proxyHealth s !! q = Some downUntil →
    ∃ k : nat, (k < reads s)%nat ∧
      downUntil = num_add (Num (clock k)) (PROXY_MARK_DOWN_MS cfg).

(** From [s] to [s']: the reading count has not gone down, and every record
    of [s] is still there, unchanged or rewritten at a reading made since. *)
Definition advanced (s s' : State) : Prop :=
  (reads s ≤ reads s')%nat ∧
  ∀ q a, proxyHealth s !! q = Some a →
    ∃ b, proxyHealth s' !! q = Some b ∧
      (b = a ∨ ∃ k : nat, (reads s ≤ k < reads s')%nat ∧
                 b = num_add (Num (clock k)) (PROXY_MARK_DOWN_MS cfg)).

(** The first [upto] candidates were each found down at a reading of the
    clock made from this state on and before the [r']-th. *)
Definition skipped (s : State) (upto : nat) (r' : nat) : Prop :=
  ∀ o : nat, (o < upto)%nat →
    ∃ q j, cand s o = Some q ∧ (reads s ≤ j < r')%nat ∧
           healthy_at (proxyHealth s) (clock j) q = false.

End Gateway.

(** The clock never runs backwards. *)
Definition monotone (clock : nat → Z) : Prop :=
  ∀ i j : nat, (i ≤ j)%nat → clock i ≤ clock j.

End Relay.

Import Relay.

(** ** Concrete inputs used to exercise the statements *)

(** A clock that advances one millisecond per reading. *)
Definition tick (k : nat) : Z := 1700000000000 + Z.of_nat k.

Definition always (res : Reply) : nat → Request → Settled Reply :=
  λ _ _, Resolved res.

Definition busy : Reply :=
  {| status := 503; content_type := None;
     text := Resolved "busy"; json := Rejected "not JSON" |}.

Definition not_found : Reply :=
  {| status := 404; content_type := None;
     text := Resolved "no such page"; json := Rejected "not JSON" |}.

Definition garbled : Reply :=
  {| status := 200; content_type := Some "application/json; charset=utf-8"%string;
     text := Resolved "{"; json := Rejected "Unexpected end of JSON input" |}.

Definition answer : Reply :=
  {| status := 200; content_type := Some "application/json"%string;
     text := Resolved "[1, 2]";
     json := Resolved (JArray [ JNumber 1; JNumber 2 ]) |}.

Definition relay_payload : Payload :=
  {| targetUrl := Some "https://api.example/v1"%string; method := None;
     payload_headers := None; payload_body := None |}.

Definition relay_event : Event :=
  {| httpMethod := "POST"; event_body := Parsed relay_payload |}.

(** A clock whose second reading comes a minute after the first. *)
Definition jump (k : nat) : Z :=
  match k with
  | O => 1700000000000
  | S _ => 1700000060000 + Z.of_nat k
  end.

(** The pool of the function's earlier version, and the state in which its
    single proxy has just been marked down. *)
Definition single_pool : list string := [ "https://proxy.cors.sh/"%string ].

Definition single_down : State :=
  (markProxyDown default_config tick "https://proxy.cors.sh/" initial_state).2.

Definition single_down_long_ago : State :=
  (markProxyDown default_config jump "https://proxy.cors.sh/" initial_state).2.

(** * More of the program *)

(** ** Building the pool (lines 32-45) *)

Module Loading.

(** What [JSON.parse(RAW_PROXIES)] does: throw, or yield a value. *)
Inductive Parse : Type :=
| Throws
| Yields (v : JValue).

(** [s.split(",")] for a one-character separator: never an empty list. *)
Fixpoint split_on (sep : ascii) (s : string) : list string :=
  match s with
  | EmptyString => [EmptyString]
  | String c rest =>
      if Ascii.eqb c sep then EmptyString :: split_on sep rest
      else match split_on sep rest with
           | piece :: pieces => String c piece :: pieces
           | [] => [String c EmptyString]
           end
  end.

Fixpoint last_char (s : string) : option ascii :=
  match s with
  | EmptyString => None
  | String c EmptyString => Some c
  | String _ rest => last_char rest
  end.

Definition is_ascii (c : ascii) : bool := code c <? 128.

Fixpoint has_char (c : ascii) (s : string) : bool :=
  match s with
  | EmptyString => false
  | String d rest => Ascii.eqb d c || has_char c rest
  end.

(** [s.trim()].  White space outside ASCII is not modelled: when what is
    left after trimming ASCII white space begins or ends with a byte
    outside ASCII, which may belong to such a character, the result is
    [None]. *)
Definition js_trim (s : string) : option string :=
  let t := trim s in
  match t, last_char t with
  | String c _, Some d => if is_ascii c && is_ascii d then Some t else None
  | _, _ => Some t
  end.

(** [Boolean(s)] on a string *)
Definition nonempty (s : string) : bool :=
  match s with
  | EmptyString => false
  | String _ _ => true
  end.

(** Line 40: [RAW_PROXIES.split(",").map(s => s.trim()).filter(Boolean)] *)
Definition csv_pool (raw : string) : option (list string) :=
  pieces ← mapM js_trim (split_on "," raw);
  Some (List.filter nonempty pieces).

(** The pool is a list of strings; an array with another kind of element
    is outside the model. *)
Definition strings_of (items : list JValue) : option (list string) :=
  mapM (λ v, match v with JString s => Some s | _ => None end) items.

(** Lines 32-45.  [raw] is [process.env.PROXIES], [parsed] what
    [JSON.parse] does with it. *)
Definition load_proxies (raw : option string) (parsed : Parse)
  : option (list string) :=
  match raw with
  | None | Some EmptyString => Some DEFAULT_PROXIES
  | Some r =>
      configured ← match parsed with
                   | Yields (JArray items) => strings_of items
                   | _ => csv_pool r
                   end;
      Some (pool_or_default configured)
  end.

(** An entry that the CSV form can carry unchanged: not empty, free of
    commas, beginning and ending with an ASCII character that is not white
    space. *)
Definition clean (s : string) : Prop :=
  has_char "," s = false ∧
  match s, last_char s with
  | String c _, Some d =>
      is_ascii c = true ∧ is_ws c = false ∧
      is_ascii d = true ∧ is_ws d = false
  | _, _ => False
  end.

End Loading.

(** ** Serving requests: vocabulary for the handler of lines 84-198 *)

Module Serving.

(** The answer carries data the handler can read: parsed JSON when the
    content type declares it (line 157), the text otherwise. *)
Definition readable (res : Reply) (data : JValue) : Prop :=
  if includes "application/json" (default EmptyString (content_type res))
  then json res = Resolved data
  else ∃ t, text res = Resolved t ∧ data = JString t.

(** The fetch does not deliver: it is rejected with [message], or answers
    2xx with a body that cannot be read. *)
Definition fails_to_deliver (outcome : Settled Reply) (message : string)
  : Prop :=
  match outcome with
  | Rejected m => m = message
  | Resolved res => unreadable_2xx res message
  end.

Definition is_fetch (e : Effect) : bool :=
  match e with
  | Fetched _ _ => true
  | Slept _ => false
  end.

(** The sum of the waits in a trace. *)
Fixpoint total_wait (tr : list Effect) : jsnum :=
  match tr with
  | [] => Num 0
  | Slept ms :: rest => num_add ms (total_wait rest)
  | Fetched _ _ :: rest => total_wait rest
  end.

Section Serving.

Variable PROXIES : list string.
Variable cfg : Config.
Variable clock : nat → Z.
Variable upstream : nat → Request → Settled Reply.

(** An effect that relaying [p] to [target] may have during the attempts
    numbered from [lo] up to [hi]. *)
Definition relay_effect (p : Payload) (target : string) (lo hi : Z)
    (e : Effect) : Prop :=
  match e with
  | Fetched used req =>
      req = request_for p target used ∧
      match used with
      | Some proxy => proxy ∈ PROXIES ∧ proxy ≠ EmptyString
      | None => True
      end
  | Slept ms => ∃ attempt, lo ≤ attempt < hi ∧ ms = backoff cfg attempt
  end.

(** The handler invoked for one event after the other. *)
Fixpoint handle_many (events : list Event) : Gw (list Response) :=
  match events with
  | [] => mret []
  | event :: rest =>
      response ← handler PROXIES cfg clock upstream event;
      responses ← handle_many rest;
      mret (response :: responses)
  end.

End Serving.

End Serving.

(** ** The earlier version of the function (the unnamed source file) *)

Module Legacy.

(** [let proxyIndex = 0], with the count and the trace of the fetches. *)
Record State : Type := {
  proxyIndex : jsnum;
  fetches : nat;
  trace : list Effect
}.

Definition initial_state : State :=
  {| proxyIndex := Num 0; fetches := 0; trace := [] |}.

(** The list as the source has it. *)
Definition PROXIES : list string := [ "https://proxy.cors.sh/"%string ].

Definition targetApiUrl : string := "https://text.pollinations.ai/openai".

(** [Unusable]: [JSON.parse(event.body)] throws (as it does without a
    body) or yields [null], so that the destructuring throws.
    [Chat chatHistory]: the [chatHistory] of what it yields, [None] when
    there is none.  A number is an integer, as in [JValue]. *)
Inductive Body : Type :=
| Unusable
| Chat (chatHistory : option JValue).

Record Event : Type := {
  httpMethod : string;
  event_body : Body
}.

(** [!!chatHistory] *)
Definition truthy (v : option JValue) : bool :=
  match v with
  | None | Some JNull => false
  | Some (JBool b) => b
  | Some (JNumber z) => negb (z =? 0)
  | Some (JString s) => Loading.nonempty s
  | Some (JArray _) | Some (JObject _) => true
  end.

(** [a % b] *)
Definition num_rem (a b : jsnum) : jsnum :=
  match a, b with
  | Num x, Num y => if y =? 0 then NaN else Num (Z.rem x y)
  | _, _ => NaN
  end.

Definition failed : Response :=
  {| statusCode := 500; headers := [];
     body := JsonBody (JObject [ ("error",
                                  JString "Failed to enhance prompt.") ]%string) |}.

Definition succeeded (data : JValue) : Response :=
  {| statusCode := 200;
     headers := [ ("Access-Control-Allow-Origin", "*");
                  ("Content-Type", "application/json") ]%string;
     body := JsonBody data |}.

Section Handler.

(** The handler for any list in the place of [PROXIES]. *)
Variable pool : list string.
Variable upstream : nat → Request → Settled Reply.

(** [PROXIES[proxyIndex]]; [undefined] is [None]. *)
Definition entry (i : jsnum) : option string :=
  match i with
  | Num z => if z <? 0 then None else pool !! Z.to_nat z
  | NaN => None
  end.

(** The template literal prints [undefined] as that word. *)
Definition request (proxyUrl : option string) (chatHistory : JValue)
  : Request :=
  {| url := default "undefined"%string proxyUrl +:+ targetApiUrl;
     fetch_method := "POST";
     fetch_headers := [ ("Content-Type", "application/json");
                        ("x-cors-api-key", "temp_1234567890") ]%string;
     fetch_body := Stringified
                     (JObject [ ("model", JString "openai");
                                ("messages", chatHistory) ]%string) |}.

(** Every exception between [try] and [catch] ends in [failed]: a rejected
    fetch, the [throw] after a response that is not [ok] (or the rejection
    of its [text()]), a rejected [json()]. *)
Definition handler (event : Event) (s : State) : Response * State :=
  if negb (String.eqb (httpMethod event) "POST") then
    ({| statusCode := 405; headers := [];
        body := TextBody "Method Not Allowed" |}, s)
  else
    match event_body event with
    | Unusable => (failed, s)
    | Chat chatHistory =>
        match chatHistory with
        | Some history =>
          if truthy chatHistory then
            let proxyUrl := entry (proxyIndex s) in
            let req := request proxyUrl history in
            (match upstream (fetches s) req with
             | Rejected _ => failed
             | Resolved response =>
                 if negb (ok response) then failed
                 else match json response with
                      | Resolved data => succeeded data
                      | Rejected _ => failed
                      end
             end,
             {| proxyIndex := num_rem (num_add (proxyIndex s) (Num 1))
                                (Num (Z.of_nat (length pool)));
                fetches := S (fetches s);
                trace := trace s ++ [Fetched proxyUrl req] |})
          else
            ({| statusCode := 400; headers := [];
                body := TextBody "Missing chatHistory in request body" |}, s)
        | None =>
            ({| statusCode := 400; headers := [];
                body := TextBody "Missing chatHistory in request body" |}, s)
        end
    end.

(** The handler invoked for one event after the other. *)
Fixpoint handle_many (events : list Event) (s : State)
  : list Response * State :=
  match events with
  | [] => ([], s)
  | event :: rest =>
      let '(response, s1) := handler event s in
      let '(responses, s2) := handle_many rest s1 in
      (response :: responses, s2)
  end.

(** A POST whose body holds a truthy [chatHistory]. *)
Definition accepted (event : Event) (history : JValue) : Prop :=
  httpMethod event = "POST"%string ∧
  event_body event = Chat (Some history) ∧
  truthy (Some history) = true.

(** The answer is a 2xx whose body parses to [data]. *)
Definition delivers (outcome : Settled Reply) (data : JValue) : Prop :=
  ∃ response, outcome = Resolved response ∧ ok response = true ∧
              json response = Resolved data.

End Handler.

End Legacy.

(** ** More concrete inputs *)

(** A value of [PROXIES] in the comma-separated form, and its pool. *)
Definition csv_setting : string :=
  " https://a.example/ ,,https://b.example/?u= ".

Definition two_proxies : list string :=
  [ "https://a.example/"; "https://b.example/?u=" ]%string.

(** The built-in pool with an empty entry put first, as a JSON array in
    [PROXIES] can give it; and a pool that lists one proxy four times. *)
Definition pool_with_blank : list string := EmptyString :: DEFAULT_PROXIES.

Definition pool_of_copies : list string :=
  replicate 4 "https://proxy.cors.sh/"%string.

(** An upstream that cannot be reached. *)
Definition unreachable : nat → Request → Settled Reply :=
  λ _ _, Rejected "timeout".

(** A clock that stands still. *)
Definition frozen (k : nat) : Z := 1700000000000.

(** The first of the two proxies has just been marked down. *)
Definition first_down : State :=
  (markProxyDown default_config frozen "https://a.example/" initial_state).2.

Definition chat_history : JValue :=
  JArray [ JObject [ ("role", JString "user");
                     ("content", JString "a cat") ]%string ].

Definition chat_event : Legacy.Event :=
  {| Legacy.httpMethod := "POST";
     Legacy.event_body := Legacy.Chat (Some chat_history) |}.

(** * Properties *)

Section GatewayTheory.

Variable PROXIES : list string.
Variable cfg : Config.
Variable clock : nat → Z.
Variable upstream : nat → Request → Settled Reply.

Local Abbreviation n := (Z.of_nat (length PROXIES)).
Local Abbreviation pick_loop := (pick_loop PROXIES clock).
Local Abbreviation pickNextProxy := (pickNextProxy PROXIES clock).
Local Abbreviation markProxyDown := (markProxyDown cfg clock).
Local Abbreviation cand := (cand PROXIES).
Local Abbreviation in_pool := (in_pool PROXIES).
Local Abbreviation rotation := (rotation PROXIES).
Local Abbreviation pick_many := (pick_many PROXIES clock).
Local Abbreviation skipped := (skipped PROXIES clock).

Lemma is_up_spec c s :
  is_up clock c s =
    (healthy_at (proxyHealth s) (clock (reads s)) c,
     match proxyHealth s !! c with
     | None => s
     | Some _ => with_reads (S (reads s)) s
     end).
Proof.
  unfold is_up, healthy_at. destruct (proxyHealth s !! c); reflexivity.
Qed.

Lemma cand_shift s s' (k : nat) :
  in_pool s → (0 < length PROXIES)%nat →
  proxyIndex s' = (proxyIndex s + Z.of_nat k) `mod` n →
  ∀ o, cand s' o = cand s (k + o).
Proof.
  intros [Hlo Hhi] Hn Hi o. unfold Relay.cand. rewrite Hi.
  f_equal. f_equal.
  rewrite Nat2Z.inj_add.
  replace (proxyIndex s + 1 + (Z.of_nat k + Z.of_nat o))
    with ((proxyIndex s + Z.of_nat k) + (1 + Z.of_nat o)) by lia.
  rewrite <- (Zplus_mod_idemp_l (proxyIndex s + Z.of_nat k)).
  f_equal. lia.
Qed.

Lemma cand_in_pool s o :
  in_pool s → (0 < length PROXIES)%nat → ∃ c, cand s o = Some c ∧ c ∈ PROXIES.
Proof.
  intros [Hlo Hhi] Hn.
  assert (Hr : 0 ≤ (proxyIndex s + 1 + Z.of_nat o) `mod` n < n)
    by (apply Z.mod_pos_bound; lia).
  destruct (lookup_lt_is_Some_2 PROXIES
              (Z.to_nat ((proxyIndex s + 1 + Z.of_nat o) `mod` n))) as [c Hc];
    [lia|].
  exists c. split; [exact Hc|]. eapply list_elem_of_lookup_2, Hc.
Qed.

(** One iteration of the picker's loop, unfolded. *)
Lemma pick_loop_step k s :
  in_pool s → (0 < length PROXIES)%nat →
  ∃ c, cand s 0 = Some c ∧
    pick_loop (S k) s =
      let s1 := with_index ((proxyIndex s + 1) `mod` n) s in
      match proxyHealth s !! c with
      | None => (Some c, s1)
      | Some d =>
          if num_le (num_or0 d) (Num (clock (reads s)))
          then (Some c, with_reads (S (reads s)) s1)
          else pick_loop k (with_reads (S (reads s)) s1)
      end.
Proof.
  intros Hs Hn. destruct (cand_in_pool s 0 Hs Hn) as (c & Hc & _).
  exists c. split; [exact Hc|]. destruct Hs as [Hlo Hhi].
  assert (Hrem : Z.rem (proxyIndex s + 1) n = (proxyIndex s + 1) `mod` n)
    by (apply Z.rem_mod_nonneg; lia).
  assert (Hrng : 0 ≤ (proxyIndex s + 1) `mod` n < n)
    by (apply Z.mod_pos_bound; lia).
  simpl. rewrite Hrem. unfold entry.
  destruct (Z.ltb_spec ((proxyIndex s + 1) `mod` n) 0) as [?|_]; [lia|].
  unfold Relay.cand in Hc. rewrite Z.add_0_r in Hc. rewrite Hc.
  unfold mbind, Gw_bind. rewrite is_up_spec. unfold healthy_at. simpl.
  destruct (proxyHealth s !! c) as [d|]; [|reflexivity].
  destruct (num_le (num_or0 d) (Num (clock (reads s)))); reflexivity.
Qed.

(** One pass of the picker's loop: [it] iterations, [r] readings of the
    clock; nothing but the cursor and the reading count changes. *)
Lemma pick_loop_spec k : ∀ s,
  in_pool s → (0 < length PROXIES)%nat →
  ∃ it r : nat,
    let res := (pick_loop k s).1 in
    let s' := (pick_loop k s).2 in
    proxyHealth s' = proxyHealth s ∧ fetches s' = fetches s ∧
    trace s' = trace s ∧ reads s' = (reads s + r)%nat ∧
    (r ≤ it ≤ k)%nat ∧
    (it = 0%nat → s' = s) ∧
    ((0 < it)%nat → proxyIndex s' = (proxyIndex s + Z.of_nat it) `mod` n) ∧
    match res with
    | Some p =>
        ∃ o, it = S o ∧ cand s o = Some p ∧ skipped s o (reads s') ∧
             (proxyHealth s !! p = None ∨
              ∃ j, (reads s ≤ j < reads s')%nat ∧
                   healthy_at (proxyHealth s) (clock j) p = true)
    | None => it = k ∧ skipped s k (reads s')
    end.
Proof.
  induction k as [|k IH]; intros s Hs Hn.
  - exists 0%nat, 0%nat. simpl. split_and!; auto; try lia.
    intros o Ho. lia.
  - destruct Hs as [Hlo Hhi].
    assert (Hrem : Z.rem (proxyIndex s + 1) n = (proxyIndex s + 1) `mod` n)
      by (apply Z.rem_mod_nonneg; lia).
    assert (Hrng : 0 ≤ (proxyIndex s + 1) `mod` n < n)
      by (apply Z.mod_pos_bound; lia).
    assert (Hc0 : ∃ c, cand s 0 = Some c).
    { unfold Relay.cand. apply lookup_lt_is_Some_2.
      rewrite Z.add_0_r. lia. }
    destruct Hc0 as [c Hc].
    assert (Hentry : entry PROXIES (Z.rem (proxyIndex s + 1) n) = Some c).
    { unfold entry. rewrite Hrem.
      destruct (Z.ltb_spec ((proxyIndex s + 1) `mod` n) 0) as [?|_]; [lia|].
      unfold Relay.cand in Hc. rewrite Z.add_0_r in Hc. exact Hc. }
    set (s1 := with_index (Z.rem (proxyIndex s + 1) n) s).
    assert (Hstep : Relay.pick_loop PROXIES clock (S k) s =
              (up ← is_up clock c;
               if up : bool then mret (Some c) else pick_loop k) s1).
    { simpl. fold s1. rewrite Hentry. reflexivity. }
    rewrite Hstep. unfold mbind, Gw_bind. rewrite is_up_spec.
    assert (Hshift1 : ∀ s2, proxyIndex s2 = proxyIndex s1 →
              ∀ o, cand s2 o = cand s (1 + o)).
    { intros s2 E. apply cand_shift; [split; lia | lia |].
      rewrite E. simpl. rewrite Hrem. reflexivity. }
    destruct (healthy_at (proxyHealth s1) (clock (reads s1)) c) eqn:Hup.
    + (* the first candidate is up *)
      exists 1%nat. simpl in Hup.
      destruct (proxyHealth s !! c) as [d|] eqn:Hd; simpl; rewrite Hd; simpl.
      * exists 1%nat. split_and!; auto; try lia.
        exists 0%nat. split_and!; auto.
        { intros o Ho. lia. }
        right. exists (reads s). split; [lia|exact Hup].
      * exists 0%nat. split_and!; auto; try lia.
        exists 0%nat. split_and!; auto.
        intros o Ho. lia.
    + (* it is down: it has a record, the clock was read, the loop goes on *)
      simpl in Hup.
      destruct (proxyHealth s !! c) as [d|] eqn:Hd;
        [|unfold healthy_at in Hup; rewrite Hd in Hup; discriminate].
      simpl. rewrite Hd.
      set (s2 := with_reads (S (reads s)) s1).
      assert (Hs2 : in_pool s2).
      { unfold Relay.in_pool. simpl. lia. }
      destruct (IH s2 Hs2 Hn) as (it & r & Hh & Hf & Ht & Hr & Hle & H0 & Hpos & Hres).
      exists (S it), (S r). simpl in *.
      assert (Hsk : ∀ m, skipped s2 m (reads (pick_loop k s2).2) →
                skipped s (S m) (reads (pick_loop k s2).2)).
      { intros m Hm o Ho. destruct o as [|o].
        - exists c, (reads s). split; [exact Hc|]. split; [|exact Hup].
          rewrite Hr. lia.
        - destruct (Hm o ltac:(lia)) as (q & j & Hq & Hj & Hq').
          exists q, j. rewrite (Hshift1 s2 eq_refl) in Hq.
          split; [exact Hq|]. split; [simpl in Hj; lia|exact Hq']. }
      split_and!; [exact Hh | exact Hf | exact Ht | rewrite Hr; lia
                  | lia | lia | discriminate | | ].
      { intros _. destruct it as [|it'].
        - rewrite (H0 eq_refl). simpl. rewrite Hrem. reflexivity.
        - rewrite Hpos by lia. rewrite Hrem.
          rewrite Zplus_mod_idemp_l. f_equal. lia. }
      destruct ((pick_loop k s2).1) as [p|].
      * destruct Hres as (o & -> & Hco & Hsko & Hp).
        exists (S o). rewrite (Hshift1 s2 eq_refl) in Hco.
        split_and!; auto.
        destruct Hp as [Hp|(j & Hj & Hp)]; [left; exact Hp|].
        right. exists j. split; [simpl in Hj; lia|exact Hp].
      * destruct Hres as [-> Hsk']. split; auto.
Qed.

(** [pickNextProxy] itself: the loop over the whole pool, or nothing at all
    when the pool is empty. *)
Lemma pick_spec s :
  in_pool s →
  ∃ it r : nat,
    let res := (pickNextProxy s).1 in
    let s' := (pickNextProxy s).2 in
    proxyHealth s' = proxyHealth s ∧ fetches s' = fetches s ∧
    trace s' = trace s ∧ reads s' = (reads s + r)%nat ∧
    (r ≤ it ≤ length PROXIES)%nat ∧
    (it = 0%nat → s' = s) ∧
    ((0 < it)%nat → proxyIndex s' = (proxyIndex s + Z.of_nat it) `mod` n) ∧
    match res with
    | Some p =>
        ∃ o, it = S o ∧ cand s o = Some p ∧ skipped s o (reads s') ∧
             (proxyHealth s !! p = None ∨
              ∃ j, (reads s ≤ j < reads s')%nat ∧
                   healthy_at (proxyHealth s) (clock j) p = true)
    | None => it = length PROXIES ∧
              skipped s (length PROXIES) (reads s')
    end.
Proof.
  intros Hs. unfold Relay.pickNextProxy.
  destruct (length PROXIES) as [|m] eqn:Hlen.
  - exists 0%nat, 0%nat. simpl. split_and!; auto; try lia.
    intros o Ho. lia.
  - rewrite <- Hlen. apply pick_loop_spec; [exact Hs | lia].
Qed.

Lemma pick_in_pool s : in_pool s → in_pool (pickNextProxy s).2.
Proof.
  intros Hs. destruct (pick_spec s Hs) as (it & r & _ & _ & _ & _ & Hle & H0 & Hpos & _).
  destruct it as [|it].
  - rewrite (H0 eq_refl). exact Hs.
  - unfold Relay.in_pool. rewrite Hpos by lia.
    assert (0 ≤ (proxyIndex s + Z.of_nat (S it)) `mod` n < n)
      by (apply Z.mod_pos_bound; lia).
    lia.
Qed.

(** A record that lies strictly in the future fails the test of line 65. *)
Lemma future_record_is_down (t : Z) (downUntil : jsnum) :
  num_lt (Num t) downUntil = true →
  num_le (num_or0 downUntil) (Num t) = false.
Proof.
  destruct downUntil as [z|]; simpl; [|discriminate].
  intros H. apply Z.ltb_lt in H.
  destruct z; simpl; apply Z.leb_gt; lia.
Qed.

(** A record that the clock has reached passes it. *)
Lemma reached_record_is_up (t : Z) (downUntil : jsnum) :
  num_le downUntil (Num t) = true →
  num_le (num_or0 downUntil) (Num t) = true.
Proof.
  destruct downUntil as [z|]; simpl; [|discriminate].
  destruct z; simpl; auto.
Qed.

(** The candidate next in line is returned when it passes the test. *)
Lemma pick_first_up s c :
  in_pool s → cand s 0 = Some c →
  healthy_at (proxyHealth s) (clock (reads s)) c = true →
  (pickNextProxy s).1 = Some c ∧
  proxyIndex (pickNextProxy s).2 = (proxyIndex s + 1) `mod` n ∧
  proxyHealth (pickNextProxy s).2 = proxyHealth s ∧
  (reads s ≤ reads (pickNextProxy s).2 ≤ S (reads s))%nat.
Proof.
  intros Hs Hc Hup. unfold Relay.pickNextProxy.
  destruct (length PROXIES) as [|m] eqn:Hlen.
  - unfold Relay.cand in Hc. rewrite Hlen in Hc.
    apply lookup_lt_Some in Hc. lia.
  - destruct (pick_loop_step m s Hs ltac:(lia)) as (c' & Hc' & ->).
    rewrite Hc in Hc'. injection Hc' as <-.
    unfold healthy_at in Hup. simpl.
    destruct (proxyHealth s !! c) as [d|]; [rewrite Hup|]; simpl;
      rewrite ?Hlen; split_and!; auto; lia.
Qed.

(** With every proxy down at every reading, the loop runs [k] times, reads
    the clock [k] times and finds nothing. *)
Lemma pick_loop_all_down k : ∀ s,
  in_pool s → (0 < length PROXIES)%nat →
  (∀ p j, p ∈ PROXIES → (reads s ≤ j < reads s + k)%nat →
          healthy_at (proxyHealth s) (clock j) p = false) →
  (pick_loop k s).1 = None ∧
  reads (pick_loop k s).2 = (reads s + k)%nat ∧
  proxyHealth (pick_loop k s).2 = proxyHealth s.
Proof.
  induction k as [|k IH]; intros s Hs Hn Hdown.
  - simpl. split_and!; auto.
  - destruct (pick_loop_step k s Hs Hn) as (c & Hc & ->).
    destruct (cand_in_pool s 0 Hs Hn) as (c' & Hc' & Hin).
    rewrite Hc in Hc'. injection Hc' as <-.
    pose proof (Hdown c (reads s) Hin ltac:(lia)) as Hd.
    unfold healthy_at in Hd. simpl.
    destruct (proxyHealth s !! c) as [d|]; [|discriminate]. rewrite Hd.
    set (s2 := with_reads (S (reads s)) (with_index ((proxyIndex s + 1) `mod` n) s)).
    assert (Hs2 : in_pool s2).
    { unfold Relay.in_pool. simpl.
      assert (0 ≤ (proxyIndex s + 1) `mod` n < n)
        by (apply Z.mod_pos_bound; lia).
      lia. }
    destruct (IH s2 Hs2 Hn) as (H1 & H2 & H3).
    { intros p j Hp Hj. simpl in *. apply Hdown; [exact Hp | lia]. }
    rewrite H1, H2, H3. simpl. split_and!; auto; lia.
Qed.

Lemma pick_many_S k s :
  (pick_many (S k) s).1 =
    (pickNextProxy s).1 :: (pick_many k (pickNextProxy s).2).1.
Proof.
  simpl. unfold mbind, Gw_bind.
  destruct (pickNextProxy s) as [p s1]. simpl.
  destruct (pick_many k s1) as [ps s2]. reflexivity.
Qed.

(** While every proxy passes the test, [k] calls return the next [k]
    candidates in order. *)
Lemma pick_many_cands k : ∀ s,
  in_pool s → (0 < length PROXIES)%nat →
  (∀ p j, p ∈ PROXIES → (reads s ≤ j < reads s + k)%nat →
          healthy_at (proxyHealth s) (clock j) p = true) →
  (pick_many k s).1 = map (cand s) (seq 0 k).
Proof.
  induction k as [|k IH]; intros s Hs Hn Hup; [reflexivity|].
  rewrite pick_many_S.
  destruct (cand_in_pool s 0 Hs Hn) as (c & Hc & Hin).
  destruct (pick_first_up s c Hs Hc (Hup c (reads s) Hin ltac:(lia)))
    as (Hres & Hidx & Hh & Hr).
  rewrite Hres, IH; [| by apply pick_in_pool | exact Hn |].
  - simpl. rewrite Hc. f_equal.
    rewrite <- seq_shift, map_map. apply map_ext. intros o.
    apply (cand_shift s _ 1 Hs Hn). exact Hidx.
  - intros p j Hp Hj. rewrite Hh. apply Hup; [exact Hp | lia].
Qed.

Lemma rotation_lookup s (o : nat) :
  in_pool s → (o < length PROXIES)%nat →
  rotation s !! o = cand s o.
Proof.
  intros [Hlo Hhi] Ho. unfold rotation, Relay.cand.
  rewrite lookup_rotate_r by exact Ho. unfold rotate_nat_add.
  rewrite Z2Nat.id by lia. reflexivity.
Qed.

Lemma cands_rotation s :
  in_pool s → (0 < length PROXIES)%nat →
  map (cand s) (seq 0 (length PROXIES)) = Some <$> rotation s.
Proof.
  intros Hs Hn. apply list_eq. intros i.
  rewrite !list_lookup_fmap.
  destruct (decide (i < length PROXIES)%nat) as [Hi|Hi].
  - rewrite lookup_seq_lt by exact Hi. simpl.
    rewrite rotation_lookup by assumption.
    destruct (cand_in_pool s i Hs Hn) as (c & -> & _). reflexivity.
  - rewrite lookup_seq_ge by lia.
    rewrite (lookup_ge_None_2 (rotation s));
      [reflexivity | unfold rotation; rewrite length_rotate; lia].
Qed.

Lemma rotation_Permutation s : rotation s ≡ₚ PROXIES.
Proof.
  unfold rotation, rotate.
  rewrite Permutation_app_comm. rewrite take_drop. reflexivity.
Qed.

(** C4. Round-robin fairness: when every proxy of a pool of [N >= 1]
    proxies passes the health test at each of the (at most [N]) readings of
    the clock that the calls make, [N] consecutive calls of [pickNextProxy]
    return the pool rotated to start just after the cursor, hence every
    entry of the pool exactly once before any repeats. *)
Theorem round_robin_fairness s :
  (1 ≤ length PROXIES)%nat → in_pool s →
  (∀ p j, p ∈ PROXIES → (reads s ≤ j < reads s + length PROXIES)%nat →
          healthy_at (proxyHealth s) (clock j) p = true) →
  (pick_many (length PROXIES) s).1 = Some <$> rotation s ∧
  rotation s ≡ₚ PROXIES.
Proof.
  intros Hn Hs Hup. split; [|apply rotation_Permutation].
  rewrite pick_many_cands by (assumption || lia).
  apply cands_rotation; [assumption | lia].
Qed.

(** C6. When every proxy of the pool has a record that lies strictly after
    every reading of the clock during the call, [pickNextProxy] returns
    [null]; it has then gone once round the pool, reading the clock once per
    proxy, and has left the health map alone. *)
Theorem all_down_returns_null s :
  in_pool s →
  (∀ p, p ∈ PROXIES →
     ∃ downUntil, proxyHealth s !! p = Some downUntil ∧
       ∀ j, (reads s ≤ j < reads s + length PROXIES)%nat →
            num_lt (Num (clock j)) downUntil = true) →
  (pickNextProxy s).1 = None ∧
  reads (pickNextProxy s).2 = (reads s + length PROXIES)%nat ∧
  proxyHealth (pickNextProxy s).2 = proxyHealth s.
Proof.
  intros Hs Hdown. unfold Relay.pickNextProxy.
  destruct (length PROXIES) as [|m] eqn:Hlen.
  - simpl. split_and!; auto.
  - rewrite <- Hlen. apply pick_loop_all_down; [exact Hs | lia |].
    intros p j Hp Hj. destruct (Hdown p Hp) as (d & Hd & Hfut).
    unfold healthy_at. rewrite Hd.
    apply future_record_is_down, Hfut. lia.
Qed.

(** A proxy whose record lies after every reading of a call is not what
    the call returns. *)
Lemma pick_avoids_down s p downUntil :
  in_pool s → proxyHealth s !! p = Some downUntil →
  (∀ j, (reads s ≤ j < reads (pickNextProxy s).2)%nat →
        num_lt (Num (clock j)) downUntil = true) →
  (pickNextProxy s).1 ≠ Some p.
Proof.
  intros Hs Hd Hbefore Hret.
  destruct (pick_spec s Hs) as (it & r & _ & _ & _ & _ & _ & _ & _ & Hres).
  rewrite Hret in Hres.
  destruct Hres as (o & _ & _ & _ & [Hnone | (j & Hj & Hup)]).
  - congruence.
  - unfold healthy_at in Hup. rewrite Hd in Hup.
    rewrite (future_record_is_down _ _ (Hbefore j Hj)) in Hup.
    discriminate.
Qed.

(** C5. After [markProxyDown(p)] at clock reading [t], a call of
    [pickNextProxy] all of whose clock readings are strictly before
    [t + PROXY_MARK_DOWN_MS] does not return [p]; and as soon as the clock
    has reached the stored timestamp, the same record, untouched, lets the
    picker return [p] when [p] is next in line. *)
Theorem mark_down_window p s0 s :
  let downUntil := num_add (Num (clock (reads s0))) (PROXY_MARK_DOWN_MS cfg) in
  in_pool s →
  proxyHealth s !! p = proxyHealth (markProxyDown p s0).2 !! p →
  proxyHealth s !! p = Some downUntil ∧
  ((∀ j, (reads s ≤ j < reads (pickNextProxy s).2)%nat →
         num_lt (Num (clock j)) downUntil = true) →
   (pickNextProxy s).1 ≠ Some p) ∧
  (num_le downUntil (Num (clock (reads s))) = true →
   cand s 0 = Some p →
   (pickNextProxy s).1 = Some p).
Proof.
  intros downUntil Hs Hrec.
  assert (Hd : proxyHealth s !! p = Some downUntil).
  { rewrite Hrec. simpl. apply lookup_insert_eq. }
  split; [exact Hd|]. split.
  - intros Hbefore. exact (pick_avoids_down s p downUntil Hs Hd Hbefore).
  - intros Hreached Hnext.
    apply (pick_first_up s p Hs Hnext).
    unfold healthy_at. rewrite Hd. apply reached_record_is_up, Hreached.
Qed.

(** ** The retry loop *)

Local Abbreviation retry_loop := (retry_loop PROXIES cfg clock upstream).
Local Abbreviation settle := (settle cfg clock).
Local Abbreviation caught := (caught cfg clock).
Local Abbreviation handler := (handler PROXIES cfg clock upstream).

(** The picker never touches the health map, the fetch count or the trace,
    and never reads the clock more than once per iteration. *)
Lemma pick_loop_frame k : ∀ s,
  proxyHealth (pick_loop k s).2 = proxyHealth s ∧
  fetches (pick_loop k s).2 = fetches s ∧
  trace (pick_loop k s).2 = trace s ∧
  (reads s ≤ reads (pick_loop k s).2 ≤ reads s + k)%nat.
Proof.
  induction k as [|k IH]; intros s; [simpl; split_and!; auto; lia|].
  simpl. destruct (entry PROXIES _) as [c|]; [|simpl; split_and!; auto; lia].
  unfold mbind, Gw_bind. rewrite is_up_spec.
  destruct (healthy_at _ _ c).
  - simpl. destruct (proxyHealth s !! c); simpl; split_and!; auto; lia.
  - simpl. destruct (proxyHealth s !! c); simpl.
    + destruct (IH (with_reads (S (reads s))
                      (with_index (Z.rem (proxyIndex s + 1) n) s)))
        as (H1 & H2 & H3 & H4).
      simpl in *. rewrite H1, H2, H3. split_and!; auto; lia.
    + destruct (IH (with_index (Z.rem (proxyIndex s + 1) n) s))
        as (H1 & H2 & H3 & H4).
      simpl in *. rewrite H1, H2, H3. split_and!; auto; lia.
Qed.

Lemma pick_frame s :
  proxyHealth (pickNextProxy s).2 = proxyHealth s ∧
  fetches (pickNextProxy s).2 = fetches s ∧
  trace (pickNextProxy s).2 = trace s ∧
  (reads s ≤ reads (pickNextProxy s).2 ≤ reads s + length PROXIES)%nat.
Proof.
  unfold Relay.pickNextProxy.
  destruct (length PROXIES) as [|m] eqn:E.
  - simpl. split_and!; auto; lia.
  - apply (pick_loop_frame (S m)).
Qed.

(** One iteration of the retry loop, up to the settled fetch. *)
Lemma retry_loop_S p target r a le s :
  retry_loop p target (S r) a le s =
    let used := or_null (pickNextProxy s).1 in
    let s1 := (pickNextProxy s).2 in
    let req := request_for p target used in
    settle used a (clock (reads s1)) (retry_loop p target r (a + 1))
      (upstream (fetches s1) req)
      (with_effect (S (fetches s1)) (Fetched used req)
         (with_reads (S (reads s1)) s1)).
Proof.
  simpl. unfold mbind, Gw_bind.
  destruct (pickNextProxy s) as [proxy s1]. reflexivity.
Qed.

Lemma is_5xx_not_ok res : is_5xx (status res) = true → ok res = false.
Proof.
  unfold is_5xx, ok. intros H. apply andb_true_iff in H as [H1 H2].
  apply Z.leb_le in H1. apply andb_false_iff. right. apply Z.leb_gt. lia.
Qed.

(** A 5xx answer through a proxy: the clock is read for the latency, the
    proxy is marked down, the loop waits and goes on. *)
Lemma settle_5xx px a start next res s :
  is_5xx (status res) = true →
  settle (Some px) a start next (Resolved res) s =
    next (error_of_response (status res) (body_text res) (Some px)
            (clock (reads s) - start))
      ((sleep (backoff cfg a) (markProxyDown px (now clock s).2).2).2).
Proof.
  intros H5. unfold Relay.settle. unfold mbind at 1. unfold Gw_bind at 1.
  simpl. rewrite (is_5xx_not_ok _ H5). simpl. rewrite H5. reflexivity.
Qed.

(** An answer that is neither 2xx nor a 5xx through a proxy ends the run. *)
Lemma settle_direct used a start next res s :
  ok res = false →
  (used = None ∨ is_5xx (status res) = false) →
  settle used a start next (Resolved res) s =
    (upstream_error (status res) (body_text res), (now clock s).2).
Proof.
  intros Hok Hcase. unfold Relay.settle. unfold mbind at 1. unfold Gw_bind at 1.
  simpl. rewrite Hok. simpl.
  destruct used as [px|]; [|reflexivity].
  destruct Hcase as [?| ->]; [discriminate | reflexivity].
Qed.

(** A 2xx answer whose body cannot be read lands in the [catch] block. *)
Lemma settle_unreadable used a start next res message s :
  unreadable_2xx res message →
  settle used a start next (Resolved res) s =
    caught used a next message (now clock s).2.
Proof.
  intros [Hok Hbody]. unfold Relay.settle. unfold mbind at 1. unfold Gw_bind at 1.
  simpl. rewrite Hok. simpl.
  destruct (includes _ _); rewrite Hbody; reflexivity.
Qed.

Lemma caught_eq used a next message s :
  caught used a next message s =
    next (error_of_exception message used a)
      (sleep (backoff cfg a) (mark_if_used cfg clock used s).2).2.
Proof. destruct used; reflexivity. Qed.

(** The [catch] block leaves no record out and adds one for the proxy of
    the attempt. *)
Lemma mark_if_used_health used s q :
  is_Some (proxyHealth s !! q) ∨ used = Some q →
  is_Some (proxyHealth (mark_if_used cfg clock used s).2 !! q).
Proof.
  intros Hq. destruct used as [px|]; simpl.
  - destruct (decide (px = q)) as [->|Hne].
    + rewrite lookup_insert_eq. eauto.
    + rewrite lookup_insert_ne by exact Hne.
      destruct Hq as [Hq|Hq]; [exact Hq | congruence].
  - destruct Hq as [Hq|Hq]; [exact Hq | discriminate].
Qed.

Lemma handler_relays event p target s :
  relays event p target →
  handler event s =
    retry_loop p target (iterations (MAX_RETRIES cfg)) 0 JNull s.
Proof.
  intros (Hm & Hb & Ht & Hne). unfold Relay.handler.
  rewrite Hm, Hb, Ht. simpl. destruct target; [congruence | reflexivity].
Qed.

(** The loop counter and the guard of line 112: the iteration for
    [attempt] runs exactly when [attempt < MAX_RETRIES]. *)
Lemma iterations_guard (attempt : Z) :
  0 ≤ attempt →
  (Z.to_nat attempt < iterations (MAX_RETRIES cfg))%nat ↔
  num_lt (Num attempt) (MAX_RETRIES cfg) = true.
Proof.
  intros Ha. unfold iterations. destruct (MAX_RETRIES cfg) as [m|]; simpl.
  - rewrite Z.ltb_lt. lia.
  - split; [lia | discriminate].
Qed.

(** C3, as the code has it.  When the first attempt is answered with a
    status that is neither 2xx nor 5xx, the handler returns at once, after
    that single fetch, without a wait and with the health map as before.
    The response has the upstream's status; its body is not the upstream's
    body but the JSON object [{ error, details }] whose [details] is the
    upstream's body text unchanged (['<no body>'] when it cannot be
    read). *)
Theorem client_error_is_terminal event p target s res :
  let used := or_null (pickNextProxy s).1 in
  let req := request_for p target used in
  relays event p target →
  (0 < iterations (MAX_RETRIES cfg))%nat →
  upstream (fetches s) req = Resolved res →
  ok res = false → is_5xx (status res) = false →
  (handler event s).1 =
    {| statusCode := status res;
       headers := json_cors;
       body := JsonBody (JObject [ ("error", JString "Upstream returned error");
                                   ("details", JString (body_text res)) ]%string) |} ∧
  (∀ t, text res = Resolved t → body_text res = t) ∧
  proxyHealth (handler event s).2 = proxyHealth s ∧
  fetches (handler event s).2 = S (fetches s) ∧
  trace (handler event s).2 = trace s ++ [Fetched used req].
Proof.
  intros used req Hev Hit Hup Hok H5.
  rewrite (handler_relays _ _ _ _ Hev).
  destruct (iterations (MAX_RETRIES cfg)) as [|r]; [lia|].
  rewrite retry_loop_S.
  destruct (pick_frame s) as (Hh & Hf & Ht & _).
  cbv zeta. fold used. fold req. rewrite Hf, Hup.
  rewrite settle_direct by auto. simpl.
  rewrite Hh, Ht. split_and!; auto.
  intros t Ht'. unfold body_text. rewrite Ht'. reflexivity.
Qed.

(** The effects of attempts that all go back to the head of the loop,
    written out attempt by attempt. *)
Lemma retried_spelled p target selected : ∀ a,
  retried cfg p target selected a =
    mjoin (imap (λ (i : nat) used,
                   [ Fetched used (request_for p target used);
                     Slept (backoff cfg (a + Z.of_nat i)) ]) selected).
Proof.
  induction selected as [|used rest IH]; intros a; [reflexivity|].
  simpl. rewrite Z.add_0_r. do 2 f_equal. rewrite IH. f_equal.
  apply imap_ext. intros i x _. simpl.
  replace (a + Z.of_nat (S i)) with (a + 1 + Z.of_nat i) by lia. reflexivity.
Qed.

(** What the [catch] block and the wait after it do to the state. *)
Lemma caught_state used a s :
  let s' := (sleep (backoff cfg a) (mark_if_used cfg clock used s).2).2 in
  trace s' = trace s ++ [ Slept (backoff cfg a) ] ∧
  fetches s' = fetches s ∧
  match used with
  | Some px =>
      reads s' = S (reads s) ∧
      proxyHealth s' =
        <[px := num_add (Num (clock (reads s))) (PROXY_MARK_DOWN_MS cfg)]>
          (proxyHealth s)
  | None => reads s' = reads s ∧ proxyHealth s' = proxyHealth s
  end.
Proof. destruct used; simpl; split_and!; reflexivity. Qed.

(** An attempt that does not deliver, whether its fetch is rejected or
    answered by a 2xx whose body cannot be read: the proxy selected for it,
    if any, is marked down at the last reading [k] of the clock that the
    iteration makes, the backoff of the attempt is waited, and the loop
    goes on with the next attempt number and the exception as
    [lastError]. *)
Lemma undelivered_step p target r a le s message :
  Serving.fails_to_deliver
    (upstream (fetches s) (request_for p target (or_null (pickNextProxy s).1)))
    message →
  ∃ s' (k : nat),
    retry_loop p target (S r) a le s =
      retry_loop p target r (a + 1)
        (error_of_exception message (or_null (pickNextProxy s).1) a) s' ∧
    trace s' =
      trace s ++ [ Fetched (or_null (pickNextProxy s).1)
                     (request_for p target (or_null (pickNextProxy s).1));
                   Slept (backoff cfg a) ] ∧
    fetches s' = S (fetches s) ∧
    (reads s ≤ k < reads s')%nat ∧
    match or_null (pickNextProxy s).1 with
    | Some px =>
        reads s' = S k ∧
        proxyHealth s' =
          <[px := num_add (Num (clock k)) (PROXY_MARK_DOWN_MS cfg)]>
            (proxyHealth s)
    | None => proxyHealth s' = proxyHealth s
    end.
Proof.
  intros Hfail.
  destruct (pick_frame s) as (Hh & Hf & Ht & Hr).
  pose proof (retry_loop_S p target r a le s) as Hstep. cbv zeta in Hstep.
  rewrite Hf in Hstep.
  set (used := or_null (pickNextProxy s).1) in *.
  set (req := request_for p target used) in *.
  set (k0 := reads (pickNextProxy s).2) in *.
  set (s3 := with_effect _ _ _) in Hstep.
  assert (Hfacts : ∃ sX,
            (reads sX = S k0 ∨ reads sX = S (S k0)) ∧
            trace sX = trace s ++ [Fetched used req] ∧
            fetches sX = S (fetches s) ∧
            proxyHealth sX = proxyHealth s ∧
            retry_loop p target (S r) a le s =
              retry_loop p target r (a + 1)
                (error_of_exception message used a)
                (sleep (backoff cfg a)
                   (mark_if_used cfg clock used sX).2).2).
  { assert (Ht3 : trace s3 = trace s ++ [Fetched used req])
      by (rewrite <- Ht; reflexivity).
    destruct (upstream (fetches s) req) as [res|m] eqn:E;
      cbn [Serving.fails_to_deliver] in Hfail.
    - rewrite (settle_unreadable _ _ _ _ _ _ _ Hfail), caught_eq in Hstep.
      exists (now clock s3).2. split_and!; auto.
    - subst m.
      change (settle used a (clock k0) (retry_loop p target r (a + 1))
                (Rejected message) s3)
        with (caught used a (retry_loop p target r (a + 1)) message s3)
        in Hstep.
      rewrite caught_eq in Hstep.
      exists s3. split_and!; auto. }
  destruct Hfacts as (sX & HrX & HtX & HfX & HhX & Heq).
  destruct (caught_state used a sX) as (Htr & Hfe & Hmark).
  set (s' := (sleep (backoff cfg a) (mark_if_used cfg clock used sX).2).2) in *.
  exists s', (match used with Some _ => reads sX | None => k0 end).
  split; [exact Heq|].
  split; [rewrite Htr, HtX, <- app_assoc; reflexivity|].
  split; [rewrite Hfe; exact HfX|].
  destruct used as [px|]; destruct Hmark as [Hrd Hhl];
    rewrite Hrd, Hhl, ?HhX; split_and!; auto; lia.
Qed.

(** A run in which no attempt delivers: every selected proxy ends with a
    record written at a reading of the clock made during the run. *)
Lemma retry_loop_undelivered_marks p target :
  (∀ k req, ∃ message, Serving.fails_to_deliver (upstream k req) message) →
  ∀ r a le s,
  ∃ (selected : list (option string)) (le' : JValue),
    length selected = r ∧
    (retry_loop p target r a le s).1 = exhausted le' ∧
    trace (retry_loop p target r a le s).2 =
      trace s ++ retried cfg p target selected a ∧
    fetches (retry_loop p target r a le s).2 = (fetches s + r)%nat ∧
    (reads s ≤ reads (retry_loop p target r a le s).2)%nat ∧
    (∀ q, Some q ∉ selected →
          proxyHealth (retry_loop p target r a le s).2 !! q
            = proxyHealth s !! q) ∧
    (∀ px, Some px ∈ selected →
       ∃ k : nat,
         (reads s ≤ k < reads (retry_loop p target r a le s).2)%nat ∧
         proxyHealth (retry_loop p target r a le s).2 !! px =
           Some (num_add (Num (clock k)) (PROXY_MARK_DOWN_MS cfg))) ∧
    match r with
    | O => le' = le
    | S _ => ∃ message used,
               le' = error_of_exception message used (a + Z.of_nat r - 1)
    end.
Proof.
  intros Hup. induction r as [|r IH]; intros a le s.
  - exists [], le. simpl. rewrite app_nil_r. split_and!; auto.
    intros px Hpx. inversion Hpx.
  - set (used := or_null (pickNextProxy s).1).
    destruct (Hup (fetches s) (request_for p target used)) as (message & Hfail).
    destruct (undelivered_step p target r a le s message Hfail)
      as (s' & k & -> & Htr' & Hfe' & Hk & Hmark).
    fold used in Htr', Hmark |- *.
    destruct (IH (a + 1) (error_of_exception message used a) s')
      as (sel & le' & Hlen & Hresp & Htr & Hfe & Hrd & Hframe & Hmarks & Hle).
    set (final := (retry_loop p target r (a + 1)
                     (error_of_exception message used a) s').2) in *.
    exists (used :: sel), le'. split_and!.
    + simpl. lia.
    + exact Hresp.
    + rewrite Htr, Htr', <- app_assoc. reflexivity.
    + rewrite Hfe, Hfe'. lia.
    + lia.
    + intros q Hq. rewrite Hframe.
      * destruct used as [px|]; [|exact (f_equal (λ h, h !! q) Hmark)].
        destruct Hmark as [_ ->]. apply lookup_insert_ne.
        intros ->. apply Hq. apply list_elem_of_here.
      * intros Hin. apply Hq. apply list_elem_of_further, Hin.
    + intros px Hpx.
      destruct (decide (Some px ∈ sel)) as [Hin|Hout].
      * destruct (Hmarks px Hin) as (k' & Hk' & Hrec).
        exists k'. split; [lia | exact Hrec].
      * apply elem_of_cons in Hpx as [Hpx|Hpx]; [|contradiction].
        rewrite <- Hpx in Hmark. destruct Hmark as [Hrd' Hh'].
        exists k. split; [lia|].
        rewrite (Hframe px Hout), Hh'. apply lookup_insert_eq.
    + destruct r as [|r'].
      * subst le'. exists message, used. f_equal. lia.
      * destruct Hle as (m' & u' & ->). exists m', u'. f_equal. lia.
Qed.

(** C10.  An attempt that does not deliver is handled in one way, whether
    its fetch is rejected (a network failure, a timeout) or answered by a
    2xx whose body cannot be read or parsed: the proxy selected for it, if
    any, is marked down until the last reading [k] of the clock in that
    iteration plus [PROXY_MARK_DOWN_MS], [BACKOFF_BASE_MS * 2^attempt] is
    waited, and the loop goes on with the next attempt number and the
    exception [{ error, proxy, attempt }] as [lastError].  Hence, when
    every answer is a 2xx with an unreadable body, the handler makes all
    [MAX_RETRIES] attempts, waits after each, leaves every proxy it
    selected with a record written at a reading made during the run, and
    answers with the 502 of exhausted retries, not with a success. *)
Theorem unreadable_success_is_retried event p target s :
  let sent (used : option string) : Request :=
    {| url := match used with
              | Some proxy => proxy +:+ target
              | None => target
              end;
       fetch_method := default "POST"%string (method p);
       fetch_headers := default [] (payload_headers p);
       fetch_body := match payload_body p with
                     | Some (JArray _ as v) | Some (JObject _ as v) =>
                         Stringified v
                     | reqBody => Passed reqBody
                     end |} in
  let wait (attempt : Z) : jsnum :=
    num_mul (BACKOFF_BASE_MS cfg) (Num (2 ^ attempt)) in
  let thrown (message : string) (used : option string) (attempt : Z)
    : JValue :=
    JObject [ ("error", JString message);
              ("proxy", match used with
                        | Some proxy => JString proxy
                        | None => JNull
                        end);
              ("attempt", JNumber attempt) ]%string in
  relays event p target →
  (∀ r a le s0 message,
     let used := or_null (pickNextProxy s0).1 in
     Serving.fails_to_deliver (upstream (fetches s0) (sent used)) message →
     ∃ s' (k : nat),
       retry_loop p target (S r) a le s0 =
         retry_loop p target r (a + 1) (thrown message used a) s' ∧
       trace s' = trace s0 ++ [ Fetched used (sent used); Slept (wait a) ] ∧
       fetches s' = S (fetches s0) ∧
       (reads s0 ≤ k < reads s')%nat ∧
       match used with
       | Some px =>
           reads s' = S k ∧
           proxyHealth s' =
             <[px := num_add (Num (clock k)) (PROXY_MARK_DOWN_MS cfg)]>
               (proxyHealth s0)
       | None => proxyHealth s' = proxyHealth s0
       end) ∧
  ((∀ k req, ∃ res message,
       upstream k req = Resolved res ∧ unreadable_2xx res message) →
   ∃ (selected : list (option string)) (lastError : JValue),
     length selected = iterations (MAX_RETRIES cfg) ∧
     (handler event s).1 =
       {| statusCode := 502;
          headers := json_cors;
          body := JsonBody (JObject [ ("error", JString "All attempts failed");
                                      ("lastError", lastError) ]%string) |} ∧
     trace (handler event s).2 =
       trace s ++ mjoin (imap (λ (i : nat) used,
                                 [ Fetched used (sent used);
                                   Slept (wait (Z.of_nat i)) ]) selected) ∧
     (∀ px, Some px ∈ selected →
        ∃ k : nat,
          (reads s ≤ k < reads (handler event s).2)%nat ∧
          proxyHealth (handler event s).2 !! px =
            Some (num_add (Num (clock k)) (PROXY_MARK_DOWN_MS cfg))) ∧
     ((0 < iterations (MAX_RETRIES cfg))%nat →
      ∃ message used,
        lastError =
          thrown message used (Z.of_nat (iterations (MAX_RETRIES cfg)) - 1))).
Proof.
  intros sent wait thrown Hev. split.
  - intros r a le s0 message used Hfail.
    exact (undelivered_step p target r a le s0 message Hfail).
  - intros Hup. rewrite (handler_relays _ _ _ _ Hev).
    destruct (retry_loop_undelivered_marks p target) with
      (r := iterations (MAX_RETRIES cfg)) (a := 0) (le := JNull) (s := s)
      as (sel & le & Hlen & Hresp & Htr & _ & _ & _ & Hmarks & Hle).
    { intros k req. destruct (Hup k req) as (res & message & -> & Hres).
      exists message. exact Hres. }
    exists sel, le. split_and!; auto.
    + rewrite Htr, retried_spelled. reflexivity.
    + intros Hit. destruct (iterations (MAX_RETRIES cfg)) as [|r]; [lia|].
      destruct Hle as (message & used & ->). exists message, used.
      unfold thrown, error_of_exception. repeat f_equal.
Qed.

(** ** Counting healthy proxies *)

Lemma healthy_at_later h (t t' : Z) q :
  t ≤ t' → healthy_at h t q = true → healthy_at h t' q = true.
Proof.
  unfold healthy_at. intros Ht. destruct (h !! q) as [d|]; [|auto].
  destruct (num_or0 d) as [z|]; simpl; [|auto].
  rewrite !Z.leb_le. lia.
Qed.

Lemma healthy_count_app h t l1 l2 :
  healthy_count h t (l1 ++ l2) =
    (healthy_count h t l1 + healthy_count h t l2)%nat.
Proof. induction l1 as [|q l1 IH]; simpl; [reflexivity | rewrite IH; lia]. Qed.

Lemma healthy_count_none h t l :
  (∀ q, q ∈ l → healthy_at h t q = false) → healthy_count h t l = 0%nat.
Proof.
  induction l as [|q l IH]; intros H; [reflexivity|]. simpl.
  rewrite (H q) by apply list_elem_of_here.
  rewrite IH; [reflexivity|]. intros q' Hq'. apply H. by apply list_elem_of_further.
Qed.

Lemma healthy_count_le h t h' t' l :
  (∀ q, q ∈ l → healthy_at h t q = true → healthy_at h' t' q = true) →
  (healthy_count h t l ≤ healthy_count h' t' l)%nat.
Proof.
  induction l as [|q l IH]; intros H; simpl; [lia|].
  assert (healthy_count h t l ≤ healthy_count h' t' l)%nat
    by (apply IH; intros q' Hq'; apply H; by apply list_elem_of_further).
  pose proof (H q (list_elem_of_here _ _)) as Hq.
  destruct (healthy_at h t q); [rewrite Hq by reflexivity|];
    destruct (healthy_at h' t' q); lia.
Qed.

Lemma healthy_count_Permutation h t l1 l2 :
  l1 ≡ₚ l2 → healthy_count h t l1 = healthy_count h t l2.
Proof.
  induction 1; simpl; try lia.
Qed.

Lemma or_null_nonempty px : px ≠ EmptyString → or_null (Some px) = Some px.
Proof. destruct px; [congruence | reflexivity]. Qed.

Lemma cand_same_index s s' o :
  proxyIndex s' = proxyIndex s → cand s' o = cand s o.
Proof. unfold Relay.cand. intros ->. reflexivity. Qed.

(** Under a clock that does not run backwards, candidates that a call
    skipped were already failing the test when the call began. *)
Lemma skipped_unhealthy s (A : list string) m r' :
  monotone clock →
  (∀ o, (o < length A)%nat → cand s o = A !! o) →
  skipped s m r' →
  healthy_count (proxyHealth s) (clock (reads s)) (take m A) = 0%nat.
Proof.
  intros Hmono Hcand Hsk. apply healthy_count_none. intros q Hq.
  apply list_elem_of_lookup in Hq as [o Ho].
  apply lookup_take_Some in Ho as [Ho Hom].
  destruct (Hsk o Hom) as (q' & j & Hq' & Hj & Hdown).
  rewrite Hcand in Hq' by (eapply lookup_lt_Some, Ho).
  rewrite Ho in Hq'. injection Hq' as <-.
  destruct (healthy_at (proxyHealth s) (clock (reads s)) q) eqn:E; [|reflexivity].
  rewrite (healthy_at_later _ (clock (reads s)) (clock j)) in Hdown;
    [discriminate | apply Hmono; lia | exact E].
Qed.

(** The run in which every answer is a 5xx, from a loop head at which [A],
    the candidates still ahead in this round of the pool, holds at least as
    many healthy proxies as iterations remain. *)
Lemma retry_loop_all_5xx p target :
  monotone clock →
  (∀ k req, ∃ res, upstream k req = Resolved res ∧ is_5xx (status res) = true) →
  ∀ r a le s (A : list string),
    in_pool s → NoDup A → (length A ≤ length PROXIES)%nat →
    (∀ o, (o < length A)%nat → cand s o = A !! o) →
    EmptyString ∉ A →
    (r ≤ healthy_count (proxyHealth s) (clock (reads s)) A)%nat →
    ∃ (ps : list string) (le' : JValue),
      length ps = r ∧ NoDup ps ∧ (∀ x, x ∈ ps → x ∈ A) ∧
      (retry_loop p target r a le s).1 = exhausted le' ∧
      trace (retry_loop p target r a le s).2 =
        trace s ++ retried cfg p target (Some <$> ps) a ∧
      fetches (retry_loop p target r a le s).2 = (fetches s + r)%nat ∧
      match r with
      | O => le' = le
      | S r' =>
          ∃ res (k : nat) px,
            last ps = Some px ∧
            upstream (fetches s + r')%nat (request_for p target (Some px))
              = Resolved res ∧
            (reads s ≤ k)%nat ∧
            le' = error_of_response (status res) (body_text res) (Some px)
                    (clock (S k) - clock k)
      end.
Proof.
  intros Hmono H5. induction r as [|r IH];
    intros a le s A Hs HND Hlen Hcand Hne Hcount.
  - exists [], le. simpl. rewrite app_nil_r. split_and!; auto.
    + constructor.
    + intros x Hx. inversion Hx.
  - rewrite retry_loop_S. cbv zeta.
    destruct (pick_spec s Hs)
      as (it & rd & Hh & Hf & Ht & Hr & Hle & H0 & Hpos & Hres).
    pose proof (pick_in_pool s Hs) as Hs1.
    cbv zeta in *.
    destruct ((pickNextProxy s).1) as [px|].
    2: { destruct Hres as [_ Hsk].
         pose proof (skipped_unhealthy s A _ _ Hmono Hcand Hsk) as Hz.
         rewrite take_ge in Hz by exact Hlen. lia. }
    destruct Hres as (o & -> & Hco & Hsk & _).
    pose proof (skipped_unhealthy s A _ _ Hmono Hcand Hsk) as Hz.
    assert (Ho : (o < length A)%nat).
    { destruct (decide (o < length A)%nat) as [?|Hge]; [assumption|].
      rewrite take_ge in Hz by lia. lia. }
    assert (HAo : A !! o = Some px) by (rewrite <- Hcand by exact Ho; exact Hco).
    assert (Hpx : px ∈ A) by (eapply list_elem_of_lookup_2, HAo).
    assert (Hpxne : px ≠ EmptyString) by (intros ->; contradiction).
    rewrite (or_null_nonempty px Hpxne).
    destruct (H5 (fetches (pickNextProxy s).2) (request_for p target (Some px)))
      as (res & Hup & H5xx).
    rewrite Hup, settle_5xx by exact H5xx.
    set (s3 := with_effect _ _ _).
    set (le1 := error_of_response _ _ _ _).
    set (s6 := (sleep _ _).2).
    assert (Hsplit : A = take o A ++ px :: drop (S o) A)
      by (symmetry; apply take_drop_middle, HAo).
    assert (HND' : NoDup (take o A ++ px :: drop (S o) A))
      by (rewrite <- Hsplit; exact HND).
    apply NoDup_app in HND' as (_ & _ & HNDr).
    apply NoDup_cons in HNDr as [Hpxfresh HNDd].
    destruct (IH (a + 1) le1 s6 (drop (S o) A))
      as (ps & le' & Hlps & HNDps & Hsub & Hresp & Htr & Hfe & Hlast).
    + exact Hs1.
    + exact HNDd.
    + rewrite length_drop. lia.
    + intros o' Ho'. rewrite length_drop in Ho'.
      rewrite lookup_drop.
      rewrite (cand_same_index (pickNextProxy s).2 s6 o' eq_refl).
      rewrite (cand_shift s _ (S o) Hs ltac:(lia) (Hpos ltac:(lia))).
      apply Hcand. lia.
    + intros Hin. apply Hne. eapply subseteq_drop, Hin.
    + assert (Hc : (S r ≤ 0 + (1 + healthy_count (proxyHealth s)
                                 (clock (reads s)) (drop (S o) A)))%nat).
      { rewrite <- Hz. etransitivity; [exact Hcount|].
        rewrite Hsplit at 1. rewrite healthy_count_app. simpl.
        destruct (healthy_at _ _ px); lia. }
      etransitivity; [|apply (healthy_count_le (proxyHealth s) (clock (reads s)))].
      * lia.
      * intros q Hq Hup'. unfold healthy_at. simpl.
        rewrite Hh. rewrite lookup_insert_ne by (intros ->; contradiction).
        apply (healthy_at_later _ (clock (reads s))); [|exact Hup'].
        apply Hmono. lia.
    + exists (px :: ps), le'. split_and!.
      * simpl. lia.
      * apply NoDup_cons. split; [|exact HNDps].
        intros Hin. apply Hpxfresh, Hsub, Hin.
      * intros x Hx. apply elem_of_cons in Hx as [->|Hx]; [exact Hpx|].
        eapply subseteq_drop, Hsub, Hx.
      * exact Hresp.
      * rewrite Htr. simpl. rewrite Ht. rewrite <- !app_assoc. reflexivity.
      * rewrite Hfe. simpl. rewrite Hf. lia.
      * destruct r as [|r'].
        -- subst le'. destruct ps; [|discriminate].
           exists res, (reads (pickNextProxy s).2), px.
           split_and!; auto; [|lia]. rewrite Nat.add_0_r, <- Hf. exact Hup.
        -- destruct Hlast as (res' & k' & px' & Hl & Hup' & Hk' & ->).
           exists res', k', px'. split_and!; auto.
           ++ destruct ps; [discriminate|]. exact Hl.
           ++ rewrite <- Hup'. f_equal. simpl. rewrite Hf. lia.
           ++ simpl in Hk'. lia.
Qed.

(** The delay doubles with every attempt. *)
Lemma backoff_doubles (b : Z) :
  BACKOFF_BASE_MS cfg = Num b →
  (∀ i, backoff cfg i = Num (b * 2 ^ i)) ∧
  (0 < b → ∀ i j, 0 ≤ i < j →
           num_lt (backoff cfg i) (backoff cfg j) = true).
Proof.
  intros Hb. unfold backoff, pow2. rewrite Hb. simpl. split; [reflexivity|].
  intros Hpos i j Hij. apply Z.ltb_lt.
  apply Z.mul_lt_mono_pos_l; [exact Hpos|].
  apply Z.pow_lt_mono_r; lia.
Qed.

(** C1, as the code has it.  Every answer is a 5xx; the entries of the
    pool are distinct and none of them is the empty string; at least
    [MAX_RETRIES] of them are healthy when the handler starts; the clock
    does not run backwards.  Then the handler makes exactly [MAX_RETRIES]
    attempts; attempt [i] fetches the URL made of a proxy of the pool that
    no earlier attempt used followed by the target, with the payload's
    method, headers and body, and is followed by a wait of
    [BACKOFF_BASE_MS * 2^i] (delays that increase strictly, the base being
    positive); the answer is the 502 with the error [All attempts failed]
    and, as [lastError], the record of the last attempt: the status and
    text of its answer, its proxy, and the time between the two readings
    of the clock around its fetch. *)
Theorem all_5xx_exhausts_retries event p target s (m : Z) :
  let sent (px : string) : Request :=
    {| url := px +:+ target;
       fetch_method := default "POST"%string (method p);
       fetch_headers := default [] (payload_headers p);
       fetch_body := match payload_body p with
                     | Some (JArray _ as v) | Some (JObject _ as v) =>
                         Stringified v
                     | reqBody => Passed reqBody
                     end |} in
  let wait (attempt : Z) : jsnum :=
    num_mul (BACKOFF_BASE_MS cfg) (Num (2 ^ attempt)) in
  relays event p target →
  MAX_RETRIES cfg = Num m → 0 ≤ m →
  monotone clock →
  NoDup PROXIES → EmptyString ∉ PROXIES → in_pool s →
  (∀ k req, ∃ res, upstream k req = Resolved res ∧ is_5xx (status res) = true) →
  m ≤ Z.of_nat (healthy_count (proxyHealth s) (clock (reads s)) PROXIES) →
  ∃ (ps : list string) (lastError : JValue),
    Z.of_nat (length ps) = m ∧ NoDup ps ∧ (∀ x, x ∈ ps → x ∈ PROXIES) ∧
    trace (handler event s).2 =
      trace s ++ mjoin (imap (λ (i : nat) px,
                                [ Fetched (Some px) (sent px);
                                  Slept (wait (Z.of_nat i)) ]) ps) ∧
    (∀ b, BACKOFF_BASE_MS cfg = Num b →
          (∀ i, wait i = Num (b * 2 ^ i)) ∧
          (0 < b → ∀ i j, 0 ≤ i < j → num_lt (wait i) (wait j) = true)) ∧
    (handler event s).1 =
      {| statusCode := 502;
         headers := json_cors;
         body := JsonBody (JObject [ ("error", JString "All attempts failed");
                                     ("lastError", lastError) ]%string) |} ∧
    match last ps with
    | None => lastError = JNull
    | Some px =>
        ∃ res (k : nat),
          upstream (fetches s + (length ps - 1))%nat (sent px) = Resolved res ∧
          (reads s ≤ k)%nat ∧
          lastError =
            JObject [ ("status", JNumber (status res));
                      ("text", JString match text res with
                                       | Resolved t => t
                                       | Rejected _ => "<no body>"
                                       end);
                      ("proxy", JString px);
                      ("latency", JNumber (clock (S k) - clock k)) ]%string
    end.
Proof.
  intros sent wait Hev Hmax Hm Hmono HND Hne Hs H5 Hcount.
  rewrite (handler_relays _ _ _ _ Hev). rewrite Hmax. simpl.
  assert (HN : Z.to_nat m = 0%nat ∨ (0 < length PROXIES)%nat).
  { destruct PROXIES; [left; simpl in Hcount; lia | right; simpl; lia]. }
  destruct (retry_loop_all_5xx p target Hmono H5 (Z.to_nat m) 0 JNull s
              (if decide (0 < length PROXIES)%nat then rotation s else []))
    as (ps & le & Hlen & HNDps & Hsub & Hresp & Htr & Hfe & Hlast).
  - exact Hs.
  - case_decide; [|constructor]. rewrite rotation_Permutation. exact HND.
  - case_decide; [|simpl; lia]. unfold rotation. rewrite length_rotate. lia.
  - case_decide; [|simpl; lia]. intros o Ho.
    unfold rotation in Ho. rewrite length_rotate in Ho.
    symmetry. apply rotation_lookup; assumption.
  - case_decide; [|apply not_elem_of_nil].
    rewrite rotation_Permutation. exact Hne.
  - case_decide.
    + rewrite (healthy_count_Permutation _ _ _ _ (rotation_Permutation s)). lia.
    + lia.
  - exists ps, le. split_and!; auto.
    + lia.
    + intros x Hx. apply Hsub in Hx. case_decide.
      * rewrite rotation_Permutation in Hx. exact Hx.
      * inversion Hx.
    + rewrite Htr, retried_spelled, imap_fmap. reflexivity.
    + intros b Hb. apply (backoff_doubles b Hb).
    + destruct (Z.to_nat m) as [|r'] eqn:Er.
      * destruct ps; [|discriminate]. exact Hlast.
      * destruct Hlast as (res & k & px & -> & Hup & Hk & ->).
        exists res, k. split_and!; [|exact Hk|reflexivity].
        rewrite Hlen. rewrite <- Hup. f_equal. lia.
Qed.

(** C2, as the code has it.  A 5xx answer is retried exactly when a proxy
    was selected for the attempt.  The iteration then reads the clock three
    times, at [k] before the fetch, at [k + 1] after it and at [k + 2] to
    mark the proxy: the proxy is marked down until that last reading plus
    [PROXY_MARK_DOWN_MS], [BACKOFF_BASE_MS * 2^attempt] is waited, and the
    loop goes on to its next iteration with the record of this attempt as
    [lastError]; the pick of that iteration does not return the proxy
    while the clock is before the new record.  Without a selected proxy
    the 5xx is returned at once, after that one fetch, like any other
    upstream error, and nothing is marked. *)
Theorem server_error_retried_through_proxy p target r a le s res :
  let used := or_null (pickNextProxy s).1 in
  let req : Request :=
    {| url := match used with
              | Some proxy => proxy +:+ target
              | None => target
              end;
       fetch_method := default "POST"%string (method p);
       fetch_headers := default [] (payload_headers p);
       fetch_body := match payload_body p with
                     | Some (JArray _ as v) | Some (JObject _ as v) =>
                         Stringified v
                     | reqBody => Passed reqBody
                     end |} in
  let txt : string := match text res with
                      | Resolved t => t
                      | Rejected _ => "<no body>"
                      end in
  in_pool s →
  upstream (fetches s) req = Resolved res →
  is_5xx (status res) = true →
  match used with
  | Some px =>
      ∃ s' (k : nat),
        (reads s ≤ k)%nat ∧ reads s' = S (S (S k)) ∧
        retry_loop p target (S r) a le s =
          retry_loop p target r (a + 1)
            (JObject [ ("status", JNumber (status res));
                       ("text", JString txt);
                       ("proxy", JString px);
                       ("latency", JNumber (clock (S k) - clock k)) ]%string)
            s' ∧
        proxyHealth s' =
          <[px := num_add (Num (clock (S (S k)))) (PROXY_MARK_DOWN_MS cfg)]>
            (proxyHealth s) ∧
        trace s' =
          trace s ++ [ Fetched (Some px) req;
                       Slept (num_mul (BACKOFF_BASE_MS cfg) (Num (2 ^ a))) ] ∧
        fetches s' = S (fetches s) ∧
        ((∀ j, (reads s' ≤ j < reads (pickNextProxy s').2)%nat →
               num_lt (Num (clock j))
                 (num_add (Num (clock (S (S k)))) (PROXY_MARK_DOWN_MS cfg))
               = true) →
         (pickNextProxy s').1 ≠ Some px)
  | None =>
      (retry_loop p target (S r) a le s).1 =
        {| statusCode := status res;
           headers := json_cors;
           body := JsonBody (JObject [ ("error",
                                        JString "Upstream returned error");
                                       ("details", JString txt) ]%string) |} ∧
      proxyHealth (retry_loop p target (S r) a le s).2 = proxyHealth s ∧
      trace (retry_loop p target (S r) a le s).2 =
        trace s ++ [ Fetched None req ] ∧
      fetches (retry_loop p target (S r) a le s).2 = S (fetches s)
  end.
Proof.
  intros used req txt Hs Hup H5.
  assert (Hreq : req = request_for p target used) by reflexivity.
  assert (Htxt : txt = body_text res) by reflexivity.
  clearbody req txt. subst req txt.
  destruct (pick_frame s) as (Hh & Hf & Ht & Hr).
  pose proof (retry_loop_S p target r a le s) as Hstep. cbv zeta in Hstep.
  fold used in Hstep. rewrite Hf, Hup in Hstep.
  destruct used as [px|].
  - rewrite settle_5xx in Hstep by exact H5.
    set (s' := (sleep _ _).2) in Hstep.
    exists s', (reads (pickNextProxy s).2).
    assert (Hh' : proxyHealth s' =
              <[px := num_add (Num (clock (S (S (reads (pickNextProxy s).2)))))
                        (PROXY_MARK_DOWN_MS cfg)]> (proxyHealth s))
      by (rewrite <- Hh; reflexivity).
    split_and!.
    + lia.
    + reflexivity.
    + exact Hstep.
    + exact Hh'.
    + rewrite <- Ht.
      change (trace s') with
        ((trace (pickNextProxy s).2
            ++ [Fetched (Some px) (request_for p target (Some px))])
           ++ [Slept (backoff cfg a)]).
      rewrite <- app_assoc. reflexivity.
    + reflexivity.
    + apply pick_avoids_down.
      * exact (pick_in_pool s Hs).
      * rewrite Hh'. apply lookup_insert_eq.
  - rewrite settle_direct in Hstep by (auto using is_5xx_not_ok).
    rewrite Hstep. simpl. rewrite Hh, Ht. auto.
Qed.

(** ** Shape of the responses *)

Lemma settle_json_with_cors used a start next outcome s :
  (∀ le s', json_with_cors (next le s').1) →
  json_with_cors (settle used a start next outcome s).1.
Proof.
  intros Hnext.
  assert (Hc : ∀ message s', json_with_cors (caught used a next message s').1)
    by (intros; rewrite caught_eq; apply Hnext).
  unfold Relay.settle. destruct outcome as [res|message]; [|apply Hc].
  unfold mbind at 1. unfold Gw_bind at 1. simpl.
  destruct (ok res); simpl.
  - destruct (includes _ _).
    + destruct (json res); [split; simpl; eauto | apply Hc].
    + destruct (text res); [split; simpl; eauto | apply Hc].
  - destruct used as [px|]; [|split; simpl; eauto].
    destruct (is_5xx (status res)); [|split; simpl; eauto].
    apply Hnext.
Qed.

Lemma retry_loop_json_with_cors p target r : ∀ a le s,
  json_with_cors (retry_loop p target r a le s).1.
Proof.
  induction r as [|r IH]; intros a le s.
  - split; simpl; eauto.
  - rewrite retry_loop_S. cbv zeta. apply settle_json_with_cors.
    intros le' s'. apply IH.
Qed.

(** Every response but the preflight has a JSON body; all of them carry
    the two headers except the 405 and the 400, which carry none. *)
Lemma handler_response_shape event s :
  httpMethod event ≠ "OPTIONS"%string →
  (∃ v, body (handler event s).1 = JsonBody v) ∧
  (headers (handler event s).1 = json_cors ∨
   headers (handler event s).1 = [] ∧
   (statusCode (handler event s).1 = 405 ∨
    statusCode (handler event s).1 = 400)).
Proof.
  intros Hopt. unfold Relay.handler.
  destruct (String.eqb_spec (httpMethod event) "OPTIONS") as [?|_];
    [contradiction|].
  destruct (String.eqb (httpMethod event) "POST"); simpl;
    [|split; [by eexists | auto]].
  destruct (event_body event) as [e|p]; simpl;
    [split; [by eexists | auto]|].
  destruct (targetUrl p) as [[|c t]|]; simpl;
    [split; [by eexists | auto] | | split; [by eexists | auto]].
  destruct (retry_loop_json_with_cors p (String c t)
              (iterations (MAX_RETRIES cfg)) 0 JNull s) as [Hh Hb].
  auto.
Qed.

(** C7, at the inputs where the code departs from it.  The 405 for a
    method other than POST and the 400 for a missing [targetUrl] have a
    JSON body but no headers at all: neither [Content-Type] nor
    [Access-Control-Allow-Origin]. *)
Theorem early_errors_carry_no_headers s :
  (handler get_event s).1 =
    {| statusCode := 405; headers := [];
       body := JsonBody (JObject [ ("error",
                                    JString "Only POST allowed") ]%string) |} ∧
  (handler post_without_target s).1 =
    {| statusCode := 400; headers := [];
       body := JsonBody (JObject [ ("error",
                                    JString "targetUrl required") ]%string) |}.
Proof. split; reflexivity. Qed.

(** ** The health map along a run *)

Local Abbreviation prim := (prim PROXIES cfg clock upstream).
Local Abbreviation records_sound := (records_sound cfg clock).
Local Abbreviation advanced := (advanced cfg clock).

Lemma num_lt_irrefl a : num_lt a a = false.
Proof. destruct a; simpl; [apply Z.ltb_irrefl | reflexivity]. Qed.

Lemma advanced_refl s : advanced s s.
Proof. split; [lia|]. intros q a Ha. exists a. auto. Qed.

Lemma advanced_trans s1 s2 s3 :
  advanced s1 s2 → advanced s2 s3 → advanced s1 s3.
Proof.
  intros [Hr1 H1] [Hr2 H2]. split; [lia|]. intros q a Ha.
  destruct (H1 q a Ha) as (b & Hb & Hab).
  destruct (H2 q b Hb) as (c & Hc & Hbc).
  exists c. split; [exact Hc|].
  destruct Hbc as [->|(k & Hk & ->)].
  - destruct Hab as [->|(k & Hk & ->)]; [auto|].
    right. exists k. split; [lia | reflexivity].
  - right. exists k. split; [lia | reflexivity].
Qed.

(** Same health map, no fewer readings. *)
Lemma advanced_frame s s' :
  proxyHealth s' = proxyHealth s → (reads s ≤ reads s')%nat → advanced s s'.
Proof.
  intros Hh Hr. split; [exact Hr|]. intros q a Ha. exists a.
  rewrite Hh. auto.
Qed.

Lemma prim_advanced s s' : prim s s' → advanced s s'.
Proof.
  destruct 1 as [|p| |used req|ms].
  - destruct (pick_frame s) as (Hh & _ & _ & Hr & _).
    apply advanced_frame; assumption.
  - split; [simpl; lia|]. intros q a Ha. simpl.
    destruct (decide (p = q)) as [->|Hne].
    + rewrite lookup_insert_eq. eexists. split; [reflexivity|].
      right. exists (reads s). split; [lia | reflexivity].
    + rewrite lookup_insert_ne by exact Hne. exists a. auto.
  - apply advanced_frame; simpl; [reflexivity | lia].
  - apply advanced_frame; simpl; [reflexivity | lia].
  - apply advanced_frame; simpl; [reflexivity | lia].
Qed.

(** Soundness of the records survives a step that keeps the map. *)
Lemma records_sound_frame s s' :
  proxyHealth s' = proxyHealth s → (reads s ≤ reads s')%nat →
  records_sound s → records_sound s'.
Proof.
  intros Hh Hr Hs q d Hd. rewrite Hh in Hd.
  destruct (Hs q d Hd) as (k & Hk & ->). exists k. split; [lia | reflexivity].
Qed.

Lemma prim_records_sound s s' :
  prim s s' → records_sound s → records_sound s'.
Proof.
  destruct 1 as [|p| |used req|ms]; intros Hs.
  - destruct (pick_frame s) as (Hh & _ & _ & Hr & _).
    eapply records_sound_frame; eassumption.
  - intros q d. simpl. destruct (decide (p = q)) as [->|Hne].
    + rewrite lookup_insert_eq. intros [= <-].
      exists (reads s). split; [lia | reflexivity].
    + rewrite lookup_insert_ne by exact Hne. intros Hd.
      destruct (Hs q d Hd) as (k & Hk & ->).
      exists k. split; [lia | reflexivity].
  - eapply records_sound_frame; [| |exact Hs]; simpl; [reflexivity | lia].
  - eapply records_sound_frame; [| |exact Hs]; simpl; [reflexivity | lia].
  - eapply records_sound_frame; [| |exact Hs]; simpl; [reflexivity | lia].
Qed.

Lemma run_advanced s s' : rtc prim s s' → advanced s s'.
Proof.
  induction 1 as [|s1 s2 s3 H12 _ IH]; [apply advanced_refl|].
  eapply advanced_trans; [apply prim_advanced, H12 | exact IH].
Qed.

Lemma run_records_sound s s' :
  rtc prim s s' → records_sound s → records_sound s'.
Proof.
  induction 1 as [|s1 s2 s3 H12 _ IH]; [auto|].
  intros Hs. apply IH. eapply prim_records_sound; eassumption.
Qed.

(** The cursor never leaves the pool. *)
Lemma prim_in_pool s s' : prim s s' → in_pool s → in_pool s'.
Proof.
  destruct 1 as [|p| |used req|ms]; intros Hs;
    [apply pick_in_pool, Hs | exact Hs ..].
Qed.

Lemma run_in_pool s s' : rtc prim s s' → in_pool s → in_pool s'.
Proof.
  induction 1 as [|s1 s2 s3 H12 _ IH]; [auto|].
  intros Hs. apply IH. eapply prim_in_pool; eassumption.
Qed.

Lemma initial_records_sound : records_sound initial_state.
Proof. intros q d Hd. simpl in Hd. rewrite lookup_empty in Hd. discriminate. Qed.

(** A run of the handler is a sequence of primitive steps. *)
Lemma settle_steps used a start next outcome s :
  (∀ le s', rtc prim s' (next le s').2) →
  rtc prim s (settle used a start next outcome s).2.
Proof.
  intros Hnext.
  assert (Hc : ∀ message s', rtc prim s' (caught used a next message s').2).
  { intros message s'. rewrite caught_eq.
    destruct used as [px|].
    - eapply rtc_l; [apply (prim_mark _ _ _ _ _ px)|].
      eapply rtc_l; [apply (prim_sleep _ _ _ _ _ (backoff cfg a))|].
      apply Hnext.
    - eapply rtc_l; [apply (prim_sleep _ _ _ _ _ (backoff cfg a))|].
      apply Hnext. }
  unfold Relay.settle. destruct outcome as [res|message]; [|apply Hc].
  unfold mbind at 1. unfold Gw_bind at 1.
  eapply rtc_l; [apply prim_now|].
  change (now clock s) with (clock (reads s), (now clock s).2).
  cbv beta iota zeta.
  destruct (negb (ok res)).
  - destruct used as [px|]; [|apply rtc_refl].
    destruct (is_5xx (status res)); [|apply rtc_refl].
    unfold mbind, Gw_bind.
    eapply rtc_l; [apply (prim_mark _ _ _ _ _ px)|].
    change (markProxyDown px (now clock s).2)
      with (tt, (markProxyDown px (now clock s).2).2).
    cbv beta iota. unfold again, mbind, Gw_bind.
    eapply rtc_l; [apply (prim_sleep _ _ _ _ _ (backoff cfg a))|].
    apply Hnext.
  - destruct (includes _ _).
    + destruct (json res); [apply rtc_refl | apply Hc].
    + destruct (text res); [apply rtc_refl | apply Hc].
Qed.

Lemma retry_loop_steps p target r : ∀ a le s,
  rtc prim s (retry_loop p target r a le s).2.
Proof.
  induction r as [|r IH]; intros a le s; [apply rtc_refl|].
  rewrite retry_loop_S. cbv zeta.
  eapply rtc_l; [apply prim_pick|].
  eapply rtc_l; [apply prim_now|].
  eapply rtc_l;
    [apply (prim_fetch _ _ _ _ _ (or_null (pickNextProxy s).1)
              (request_for p target (or_null (pickNextProxy s).1)))|].
  destruct (pick_frame s) as (_ & Hf & _).
  apply settle_steps. intros le' s'. apply IH.
Qed.

Lemma handler_steps event s : rtc prim s (handler event s).2.
Proof.
  unfold Relay.handler.
  destruct (String.eqb _ "OPTIONS"); [apply rtc_refl|].
  destruct (negb _); [apply rtc_refl|].
  destruct (event_body event) as [e|p]; [apply rtc_refl|].
  destruct (targetUrl p) as [[|c t]|]; try apply rtc_refl.
  apply retry_loop_steps.
Qed.

(** C9. Each [markProxyDown] stores the clock's reading plus
    [PROXY_MARK_DOWN_MS]; and along any run of the module (picks,
    mark-downs, whole handler invocations) under a clock that does not run
    backwards, a record of the health map is never replaced by a lower one:
    whatever a proxy's down-until timestamp is later, it is not below what
    it was. *)
Theorem down_until_never_decreases s s' q a :
  monotone clock → records_sound s → rtc prim s s' →
  proxyHealth s !! q = Some a →
  (∀ s0 p, proxyHealth (markProxyDown p s0).2 !! p =
             Some (num_add (Num (clock (reads s0))) (PROXY_MARK_DOWN_MS cfg))) ∧
  ∃ b, proxyHealth s' !! q = Some b ∧ num_lt b a = false ∧
       ∀ x y, a = Num x → b = Num y → x ≤ y.
Proof.
  intros Hmono Hs Hrun Ha. split.
  { intros s0 p. simpl. apply lookup_insert_eq. }
  destruct (run_advanced s s' Hrun) as [_ Hadv].
  destruct (Hadv q a Ha) as (b & Hb & Hab).
  exists b. split; [exact Hb|].
  assert (Hlt : num_lt b a = false).
  { destruct Hab as [->|(k & Hk & ->)]; [apply num_lt_irrefl|].
    destruct (Hs q a Ha) as (k0 & Hk0 & ->).
    pose proof (Hmono k0 k ltac:(lia)) as Hck.
    destruct (PROXY_MARK_DOWN_MS cfg) as [d|]; simpl; [|reflexivity].
    apply Z.ltb_ge. lia. }
  split; [exact Hlt|].
  intros x y -> ->. simpl in Hlt. apply Z.ltb_ge in Hlt. exact Hlt.
Qed.

End GatewayTheory.

(** ** Numeric configuration *)

Lemma env_number_configured env name dflt v :
  env_number env name dflt = Some v → configured env name dflt v.
Proof.
  unfold env_number, configured.
  destruct (env !! name) as [[|c s]|]; congruence.
Qed.

(** C8, as the code has it.  With nothing set the four settings are
    20000, 4, 400 and 45000.  In general each setting is its default when
    the variable is unset or empty, and otherwise [Number] of the supplied
    string, whatever that is: a decimal integer gives that integer, and a
    string that is not numeric gives [NaN], not the default. *)
Theorem numeric_configuration :
  load_config ∅ = Some default_config ∧
  (∀ env cfg, load_config env = Some cfg →
     configured env "REQUEST_TIMEOUT_MS" 20000 (REQUEST_TIMEOUT_MS cfg) ∧
     configured env "MAX_RETRIES" 4 (MAX_RETRIES cfg) ∧
     configured env "BACKOFF_BASE_MS" 400 (BACKOFF_BASE_MS cfg) ∧
     configured env "PROXY_MARK_DOWN_MS" 45000 (PROXY_MARK_DOWN_MS cfg)) ∧
  (∀ s z, signed_int (trim s) = Some z → Z.abs z ≤ 2 ^ 53 →
          Number_of_string s = Some (Num z)) ∧
  (∀ s c rest, trim s = String c rest → signed_int (trim s) = None →
               can_begin_literal c = false →
               Number_of_string s = Some NaN).
Proof.
  split_and!.
  - reflexivity.
  - intros env cfg H. unfold load_config in H.
    destruct (env_number env "REQUEST_TIMEOUT_MS" 20000) as [t|] eqn:Ht;
      [|discriminate].
    destruct (env_number env "MAX_RETRIES" 4) as [r|] eqn:Hr; [|discriminate].
    destruct (env_number env "BACKOFF_BASE_MS" 400) as [b|] eqn:Hb;
      [|discriminate].
    destruct (env_number env "PROXY_MARK_DOWN_MS" 45000) as [d|] eqn:Hd;
      [|discriminate].
    simpl in H. injection H as <-. simpl.
    auto using env_number_configured.
  - intros s z Hz Habs. unfold Number_of_string.
    destruct (trim s) as [|c rest]; [discriminate|].
    rewrite Hz. destruct (Z.leb_spec (Z.abs z) (2 ^ 53)); [reflexivity | lia].
  - intros s c rest Ht Hs Hc. unfold Number_of_string.
    rewrite Ht in *. rewrite Hs, Hc. reflexivity.
Qed.

(** * The statements at concrete inputs *)

(** ** The model at work *)

Example Number_examples :
  Number_of_string "20000" = Some (Num 20000) ∧
  Number_of_string "  -3 " = Some (Num (-3)) ∧
  Number_of_string "0" = Some (Num 0) ∧
  Number_of_string " " = Some (Num 0) ∧
  Number_of_string "abc" = Some NaN ∧
  Number_of_string "1e3" = None.
Proof. repeat split. Qed.

(** A JSON answer through the first proxy of the built-in pool. *)
Example success_through_first_proxy :
  (handler DEFAULT_PROXIES default_config tick (always answer) relay_event
     initial_state).1 =
    {| statusCode := 200; headers := json_cors;
       body := JsonBody
                 (JObject [ ("success", JBool true);
                            ("proxy", JString "https://cors.bridged.cc/");
                            ("latency", JNumber 1);
                            ("data", JArray [ JNumber 1; JNumber 2 ]) ]%string) |}.
Proof. reflexivity. Qed.

Example preflight :
  (handler DEFAULT_PROXIES default_config tick (always answer)
     {| httpMethod := "OPTIONS"; event_body := Unusable "unused" |}
     initial_state).1 =
    {| statusCode := 204; headers := preflight_headers; body := TextBody EmptyString |}.
Proof. reflexivity. Qed.

Example missing_target_makes_no_fetch :
  statusCode (handler DEFAULT_PROXIES default_config tick (always answer)
                post_without_target initial_state).1 = 400 ∧
  (handler DEFAULT_PROXIES default_config tick (always answer)
     post_without_target initial_state).2 = initial_state.
Proof. split; reflexivity. Qed.

Example malformed_body_is_internal_error :
  (handler DEFAULT_PROXIES default_config tick (always answer)
     {| httpMethod := "POST";
        event_body := Unusable "SyntaxError: Unexpected token" |}
     initial_state).1 =
    {| statusCode := 500; headers := json_cors;
       body := JsonBody
                 (JObject [ ("error", JString "Internal server error");
                            ("message",
                             JString "SyntaxError: Unexpected token") ]%string) |}.
Proof. reflexivity. Qed.

(** After four failures the next request starts at the fifth proxy. *)
Example cursor_persists :
  (pickNextProxy DEFAULT_PROXIES tick
     (handler DEFAULT_PROXIES default_config tick (always busy) relay_event
        initial_state).2).1 = Some "https://api.codetabs.cn/proxy?quest="%string.
Proof. vm_compute. reflexivity. Qed.

(** ** Witnesses *)

Lemma tick_monotone : monotone tick.
Proof. intros i j Hij. unfold tick. lia. Defined.

Lemma relay_event_relays :
  relays relay_event relay_payload "https://api.example/v1".
Proof. repeat split. discriminate. Defined.

Lemma initial_in_pool pool : in_pool pool initial_state.
Proof. unfold in_pool. simpl. lia. Defined.

Lemma single_down_in_pool : in_pool single_pool single_down.
Proof. unfold in_pool. simpl. lia. Defined.

(** The built-in pool, all healthy at start: eight picks go once round. *)
Lemma round_robin_fairness_witness :
  (pick_many DEFAULT_PROXIES tick (length DEFAULT_PROXIES) initial_state).1 =
    Some <$> rotation DEFAULT_PROXIES initial_state ∧
  rotation DEFAULT_PROXIES initial_state ≡ₚ DEFAULT_PROXIES.
Proof.
  apply (round_robin_fairness DEFAULT_PROXIES tick initial_state).
  - simpl. lia.
  - apply initial_in_pool.
  - intros p j _ _. reflexivity.
Defined.

(** A pool whose single proxy has just been marked down. *)
Lemma all_down_returns_null_witness :
  (pickNextProxy single_pool tick single_down).1 = None ∧
  reads (pickNextProxy single_pool tick single_down).2 =
    (reads single_down + length single_pool)%nat ∧
  proxyHealth (pickNextProxy single_pool tick single_down).2 =
    proxyHealth single_down.
Proof.
  apply (all_down_returns_null single_pool tick single_down).
  - apply single_down_in_pool.
  - intros p Hp. apply list_elem_of_singleton in Hp as ->.
    exists (Num (tick 0 + 45000)). split; [apply lookup_insert_eq|].
    intros j Hj. simpl in Hj. apply Z.ltb_lt. unfold tick. lia.
Defined.

(** Right after the mark-down the proxy is not returned; a minute later,
    with the record untouched, it is. *)
Lemma mark_down_window_witness :
  (pickNextProxy single_pool tick single_down).1
    ≠ Some "https://proxy.cors.sh/"%string ∧
  (pickNextProxy single_pool jump single_down_long_ago).1
    = Some "https://proxy.cors.sh/"%string.
Proof.
  split.
  - destruct (mark_down_window single_pool default_config tick
                "https://proxy.cors.sh/" initial_state single_down
                single_down_in_pool eq_refl) as (_ & Hbefore & _).
    apply Hbefore. intros j Hj. vm_compute in Hj.
    apply Z.ltb_lt. unfold tick. simpl reads. lia.
  - destruct (mark_down_window single_pool default_config jump
                "https://proxy.cors.sh/" initial_state single_down_long_ago)
      as (_ & _ & Hreached).
    + unfold in_pool. simpl. lia.
    + reflexivity.
    + apply Hreached; reflexivity.
Defined.

Lemma client_error_is_terminal_witness :
  statusCode (handler DEFAULT_PROXIES default_config tick (always not_found)
                relay_event initial_state).1 = 404 ∧
  fetches (handler DEFAULT_PROXIES default_config tick (always not_found)
             relay_event initial_state).2 = 1%nat ∧
  proxyHealth (handler DEFAULT_PROXIES default_config tick (always not_found)
                 relay_event initial_state).2 = ∅.
Proof.
  destruct (client_error_is_terminal DEFAULT_PROXIES default_config tick
              (always not_found) relay_event relay_payload
              "https://api.example/v1" initial_state not_found)
    as (Hresp & _ & Hh & Hf & _).
  - apply relay_event_relays.
  - simpl. lia.
  - reflexivity.
  - reflexivity.
  - reflexivity.
  - rewrite Hresp, Hh, Hf. repeat split.
Defined.

(** Every answer is a 2xx with a garbled body: the first attempt marks its
    proxy and hands over to the second, and the run ends in the 502.  The
    first attempt does the same when its fetch is rejected. *)
Lemma unreadable_success_is_retried_witness :
  statusCode (handler DEFAULT_PROXIES default_config tick (always garbled)
                relay_event initial_state).1 = 502 ∧
  (∃ s' (k : nat),
     retry_loop DEFAULT_PROXIES default_config tick (always garbled)
       relay_payload "https://api.example/v1" 4 0 JNull initial_state =
     retry_loop DEFAULT_PROXIES default_config tick (always garbled)
       relay_payload "https://api.example/v1" 3 1
       (JObject [ ("error", JString "Unexpected end of JSON input");
                  ("proxy", JString "https://cors.bridged.cc/");
                  ("attempt", JNumber 0) ]%string) s' ∧
     reads s' = S k ∧
     proxyHealth s' =
       <["https://cors.bridged.cc/"%string := Num (tick k + 45000)]> ∅ ∧
     trace s' =
       [ Fetched (Some "https://cors.bridged.cc/"%string)
           {| url := "https://cors.bridged.cc/https://api.example/v1";
              fetch_method := "POST";
              fetch_headers := [];
              fetch_body := Passed None |};
         Slept (Num 400) ]) ∧
  (∃ s' (k : nat),
     retry_loop DEFAULT_PROXIES default_config tick unreachable
       relay_payload "https://api.example/v1" 4 0 JNull initial_state =
     retry_loop DEFAULT_PROXIES default_config tick unreachable
       relay_payload "https://api.example/v1" 3 1
       (JObject [ ("error", JString "timeout");
                  ("proxy", JString "https://cors.bridged.cc/");
                  ("attempt", JNumber 0) ]%string) s' ∧
     reads s' = S k ∧
     proxyHealth s' =
       <["https://cors.bridged.cc/"%string := Num (tick k + 45000)]> ∅).
Proof.
  destruct (unreadable_success_is_retried DEFAULT_PROXIES default_config tick
              (always garbled) relay_event relay_payload
              "https://api.example/v1" initial_state relay_event_relays)
    as [Hstep Hrun].
  destruct (unreadable_success_is_retried DEFAULT_PROXIES default_config tick
              unreachable relay_event relay_payload
              "https://api.example/v1" initial_state relay_event_relays)
    as [Hstep' _].
  split_and!.
  - destruct Hrun as (sel & le & _ & Hresp & _).
    + intros k req. exists garbled, "Unexpected end of JSON input"%string.
      split; [reflexivity|]. split; reflexivity.
    + rewrite Hresp. reflexivity.
  - destruct (Hstep 3%nat 0 JNull initial_state
                "Unexpected end of JSON input"%string)
      as (s' & k & Heq & Htr & _ & _ & Hmark).
    + split; reflexivity.
    + exists s', k.
      split_and!; [exact Heq | exact (proj1 Hmark) | exact (proj2 Hmark)
                  | exact Htr].
  - destruct (Hstep' 3%nat 0 JNull initial_state "timeout"%string)
      as (s' & k & Heq & _ & _ & _ & Hmark).
    + reflexivity.
    + exists s', k.
      split_and!; [exact Heq | exact (proj1 Hmark) | exact (proj2 Hmark)].
Defined.

Lemma all_5xx_exhausts_retries_witness :
  statusCode (handler DEFAULT_PROXIES default_config tick (always busy)
                relay_event initial_state).1 = 502 ∧
  fetches (handler DEFAULT_PROXIES default_config tick (always busy)
             relay_event initial_state).2 = 4%nat ∧
  num_lt (backoff default_config 0) (backoff default_config 1) = true.
Proof.
  destruct (all_5xx_exhausts_retries DEFAULT_PROXIES default_config tick
              (always busy) relay_event relay_payload
              "https://api.example/v1" initial_state 4)
    as (ps & le & _ & _ & _ & _ & Hdelay & Hresp & _).
  - apply relay_event_relays.
  - reflexivity.
  - lia.
  - apply tick_monotone.
  - apply (bool_decide_unpack _). vm_compute. exact I.
  - apply (bool_decide_unpack _). vm_compute. exact I.
  - apply initial_in_pool.
  - intros k req. exists busy. split; reflexivity.
  - vm_compute. discriminate.
  - rewrite Hresp. split_and!.
    + reflexivity.
    + vm_compute. reflexivity.
    + destruct (Hdelay 400 eq_refl) as [_ Hincr]. apply Hincr; lia.
Defined.

Lemma server_error_retried_through_proxy_witness :
  ∃ s' (k : nat),
    retry_loop DEFAULT_PROXIES default_config tick (always busy)
      relay_payload "https://api.example/v1" 4 0 JNull initial_state =
    retry_loop DEFAULT_PROXIES default_config tick (always busy)
      relay_payload "https://api.example/v1" 3 1
      (JObject [ ("status", JNumber 503);
                 ("text", JString "busy");
                 ("proxy", JString "https://cors.bridged.cc/");
                 ("latency", JNumber (tick (S k) - tick k)) ]%string) s' ∧
    proxyHealth s' =
      <["https://cors.bridged.cc/"%string := Num (tick (S (S k)) + 45000)]> ∅ ∧
    trace s' =
      [ Fetched (Some "https://cors.bridged.cc/"%string)
          {| url := "https://cors.bridged.cc/https://api.example/v1";
             fetch_method := "POST";
             fetch_headers := [];
             fetch_body := Passed None |};
        Slept (Num 400) ].
Proof.
  destruct (server_error_retried_through_proxy DEFAULT_PROXIES default_config
              tick (always busy) relay_payload "https://api.example/v1"
              3%nat 0 JNull initial_state busy)
    as (s' & k & _ & _ & Hstep & Hh & Htr & _).
  - apply initial_in_pool.
  - reflexivity.
  - reflexivity.
  - exists s', k. split_and!; [exact Hstep | exact Hh | exact Htr].
Defined.

(** The single proxy is marked down a second time, later. *)
Lemma down_until_never_decreases_witness :
  ∃ b, proxyHealth (markProxyDown default_config tick "https://proxy.cors.sh/"
                      single_down).2 !! "https://proxy.cors.sh/"%string
       = Some b ∧
       num_lt b (Num (tick 0 + 45000)) = false.
Proof.
  destruct (down_until_never_decreases single_pool default_config tick
              (always busy) single_down
              (markProxyDown default_config tick "https://proxy.cors.sh/"
                 single_down).2
              "https://proxy.cors.sh/" (Num (tick 0 + 45000)))
    as (_ & b & Hb & Hlt & _).
  - apply tick_monotone.
  - apply (prim_records_sound single_pool default_config tick (always busy)
             initial_state).
    + apply prim_mark.
    + apply initial_records_sound.
  - apply rtc_once. apply prim_mark.
  - reflexivity.
  - exists b. split; [exact Hb | exact Hlt].
Defined.

Lemma numeric_configuration_witness :
  configured {[ "MAX_RETRIES"%string := "7"%string ]} "MAX_RETRIES" 4 (Num 7) ∧
  Number_of_string " 250 " = Some (Num 250) ∧
  Number_of_string "fast" = Some NaN.
Proof.
  destruct numeric_configuration as (_ & Hcfg & Hint & Hnan).
  split_and!.
  - apply (Hcfg {[ "MAX_RETRIES"%string := "7"%string ]}
             {| REQUEST_TIMEOUT_MS := Num 20000; MAX_RETRIES := Num 7;
                BACKOFF_BASE_MS := Num 400; PROXY_MARK_DOWN_MS := Num 45000 |}).
    reflexivity.
  - apply Hint; [reflexivity | simpl; lia].
  - apply (Hnan "fast"%string "f"%char "ast"%string); reflexivity.
Defined.

(** ** Where the specification and the code part ways *)

(** C3 as stated fails on the body: a 404 with the text [no such page] is
    answered with the upstream's status, but the body is the JSON object
    that wraps that text as [details], not the text itself. *)
Lemma client_error_body_is_wrapped :
  let resp := (handler DEFAULT_PROXIES default_config tick (always not_found)
                 relay_event initial_state).1 in
  text not_found = Resolved "no such page"%string ∧
  statusCode resp = 404 ∧
  body resp =
    JsonBody (JObject [ ("error", JString "Upstream returned error");
                        ("details", JString "no such page") ]%string) ∧
  body resp ≠ TextBody "no such page".
Proof. vm_compute. repeat split. discriminate. Qed.

(** C1 as stated fails when an entry of the pool is the empty string, and
    when the pool lists one proxy several times.  In both pools below
    every entry is healthy and there are at least [MAX_RETRIES = 4] of
    them, and every answer is a 503.  With the empty entry first, the
    first attempt selects it, which counts as no proxy: the fetch goes to
    the target itself and its 503 is returned at once.  With four copies of
    one proxy, the first attempt marks them all down, the second goes to
    the target itself and its 503 is returned. *)
Lemma all_5xx_direct_attempt_is_final :
  let run := handler pool_with_blank default_config tick (always busy)
               relay_event initial_state in
  let copies := handler pool_of_copies default_config tick (always busy)
                  relay_event initial_state in
  MAX_RETRIES default_config = Num 4 ∧
  is_5xx (status busy) = true ∧
  healthy_count (proxyHealth initial_state) (tick 0) pool_with_blank = 9%nat ∧
  statusCode run.1 = 503 ∧
  trace run.2 =
    [ Fetched None {| url := "https://api.example/v1";
                      fetch_method := "POST";
                      fetch_headers := [];
                      fetch_body := Passed None |} ] ∧
  healthy_count (proxyHealth initial_state) (tick 0) pool_of_copies = 4%nat ∧
  statusCode copies.1 = 503 ∧
  fetches copies.2 = 2%nat ∧
  last (trace copies.2) =
    Some (Fetched None {| url := "https://api.example/v1";
                          fetch_method := "POST";
                          fetch_headers := [];
                          fetch_body := Passed None |}).
Proof. vm_compute. repeat split. Qed.

(** C2 as stated fails when no proxy was selected: with the only proxy
    marked down, a 503 is returned to the caller after a single direct
    fetch; nothing is marked down, nothing is waited for, nothing retried. *)
Lemma server_error_without_proxy_is_final :
  let run := handler single_pool default_config tick (always busy)
               relay_event single_down in
  is_5xx (status busy) = true ∧
  run.1 = upstream_error 503 "busy" ∧
  trace run.2 =
    [ Fetched None (request_for relay_payload "https://api.example/v1" None) ] ∧
  proxyHealth run.2 = proxyHealth single_down.
Proof. vm_compute. repeat split. Qed.

(** C8 as stated fails for a value that is not numeric: [MAX_RETRIES=abc]
    yields [NaN], not the default 4, and with it the handler makes no
    attempt at all. *)
Lemma non_numeric_setting_is_not_defaulted :
  let cfg := {| REQUEST_TIMEOUT_MS := Num 20000; MAX_RETRIES := NaN;
                BACKOFF_BASE_MS := Num 400; PROXY_MARK_DOWN_MS := Num 45000 |} in
  load_config {[ "MAX_RETRIES"%string := "abc"%string ]} = Some cfg ∧
  MAX_RETRIES cfg ≠ Num 4 ∧
  (handler DEFAULT_PROXIES cfg tick (always busy) relay_event initial_state).1
    = exhausted JNull ∧
  fetches (handler DEFAULT_PROXIES cfg tick (always busy) relay_event
             initial_state).2 = 0%nat.
Proof. vm_compute. repeat split. discriminate. Qed.

(** * More properties *)

(** ** Building the pool *)

Lemma trim_left_first s c r : trim_left s = String c r → is_ws c = false.
Proof.
  induction s as [|d s IH]; simpl; [discriminate|].
  destruct (is_ws d) eqn:E; [exact IH|]. intros [= <- _]. exact E.
Qed.

Lemma trim_right_cons c r :
  is_ws c = false → trim_right (String c r) = String c (trim_right r).
Proof. intros E. simpl. destruct (trim_right r); [rewrite E|]; reflexivity. Qed.

Lemma trim_right_last s d :
  Loading.last_char (trim_right s) = Some d → is_ws d = false.
Proof.
  induction s as [|c s IH]; simpl; [discriminate|].
  destruct (trim_right s) as [|c' r'] eqn:E.
  - destruct (is_ws c) eqn:Ec; simpl; [discriminate|]. intros [= <-]. exact Ec.
  - simpl. simpl in IH. exact IH.
Qed.

Lemma trim_right_id s d :
  Loading.last_char s = Some d → is_ws d = false → trim_right s = s.
Proof.
  induction s as [|c s IH]; [discriminate|].
  destruct s as [|c' r'].
  - simpl. intros [= <-] ->. reflexivity.
  - intros Hl Hd. change (Loading.last_char (String c' r') = Some d) in Hl.
    specialize (IH Hl Hd).
    change (trim_right (String c (String c' r')))
      with (match trim_right (String c' r') with
            | EmptyString => if is_ws c then EmptyString else String c EmptyString
            | t' => String c t'
            end).
    rewrite IH. reflexivity.
Qed.

Lemma last_char_some c r : ∃ d, Loading.last_char (String c r) = Some d.
Proof.
  revert c. induction r as [|c' r IH]; intros c; simpl; [eauto|]. apply IH.
Qed.

Lemma has_char_trim_left c s :
  Loading.has_char c (trim_left s) = true → Loading.has_char c s = true.
Proof.
  induction s as [|d s IH]; simpl; [auto|].
  destruct (is_ws d); simpl; [|auto].
  intros H. rewrite IH by exact H. apply orb_true_r.
Qed.

Lemma has_char_trim_right c s :
  Loading.has_char c (trim_right s) = true → Loading.has_char c s = true.
Proof.
  induction s as [|d s IH]; simpl; [auto|].
  destruct (trim_right s) as [|c' r'].
  - destruct (is_ws d); simpl; [discriminate|].
    rewrite orb_false_r. intros ->. reflexivity.
  - simpl. simpl in IH. intros H. apply orb_true_iff in H as [->|H]; [reflexivity|].
    rewrite IH by exact H. apply orb_true_r.
Qed.

(** What [trim] leaves is empty or begins and ends with a character that is
    not white space. *)
Lemma trim_ends s c r :
  trim s = String c r →
  is_ws c = false ∧
  ∃ d, Loading.last_char (String c r) = Some d ∧ is_ws d = false.
Proof.
  unfold trim. intros Ht.
  destruct (trim_left s) as [|c0 r0] eqn:El; [discriminate|].
  pose proof (trim_left_first _ _ _ El) as Hc0.
  rewrite (trim_right_cons _ _ Hc0) in Ht. injection Ht as -> Hr.
  split; [exact Hc0|].
  destruct (last_char_some c r) as [d Hd]. exists d. split; [exact Hd|].
  apply (trim_right_last (String c r0)).
  rewrite (trim_right_cons _ _ Hc0), Hr. exact Hd.
Qed.

(** No piece of a split holds the separator. *)
Lemma split_on_pieces sep s :
  Forall (λ piece, Loading.has_char sep piece = false) (Loading.split_on sep s).
Proof.
  induction s as [|c s IH]; simpl.
  - repeat constructor.
  - destruct (Ascii.eqb c sep) eqn:E.
    + constructor; [reflexivity | exact IH].
    + destruct (Loading.split_on sep s) as [|piece pieces].
      * repeat constructor. simpl. rewrite E. reflexivity.
      * inversion IH as [|? ? Hp Hps]; subst. constructor; [|exact Hps].
        simpl. rewrite E, Hp. reflexivity.
Qed.

Lemma js_trim_clean piece t :
  Loading.has_char "," piece = false →
  Loading.js_trim piece = Some t → Loading.nonempty t = true →
  Loading.clean t.
Proof.
  unfold Loading.js_trim. intros Hc Ht Hne.
  destruct (trim piece) as [|c r] eqn:E.
  - simpl in Ht. injection Ht as <-. discriminate.
  - destruct (trim_ends _ _ _ E) as (Hws & d & Hd & Hdws).
    rewrite Hd in Ht.
    destruct (Loading.is_ascii c && Loading.is_ascii d) eqn:Ha; [|discriminate].
    injection Ht as <-. apply andb_true_iff in Ha as [Hac Had].
    split.
    + destruct (Loading.has_char "," (String c r)) eqn:Hh; [|reflexivity].
      rewrite <- E in Hh. unfold trim in Hh.
      apply has_char_trim_right, has_char_trim_left in Hh. congruence.
    + rewrite Hd. auto.
Qed.

(** X1. Whatever the comma-separated form of [PROXIES] yields, every entry
    of it is clean: not empty, free of commas, and neither beginning nor
    ending with white space. *)
Theorem csv_pool_entries_clean raw pool :
  Loading.csv_pool raw = Some pool → Forall Loading.clean pool.
Proof.
  unfold Loading.csv_pool. intros H.
  destruct (mapM Loading.js_trim (Loading.split_on "," raw)) as [pieces|] eqn:E;
    [|discriminate].
  simpl in H. injection H as <-.
  apply mapM_Some_1 in E.
  pose proof (split_on_pieces "," raw) as Hp.
  induction E as [|piece t ps ts Ht _ IH]; simpl; [constructor|].
  inversion Hp as [|? ? Hpiece Hps]; subst.
  destruct (Loading.nonempty t) eqn:Hne; [|exact (IH Hps)].
  constructor; [|exact (IH Hps)].
  exact (js_trim_clean piece t Hpiece Ht Hne).
Qed.

Lemma clean_nonempty x : Loading.clean x → Loading.nonempty x = true.
Proof. intros [_ H]. destruct x; [destruct H | reflexivity]. Qed.

Lemma js_trim_of_clean x : Loading.clean x → Loading.js_trim x = Some x.
Proof.
  intros [_ H]. destruct x as [|c r]; [destruct H|].
  destruct (Loading.last_char (String c r)) as [d|] eqn:Hd; [|destruct H].
  destruct H as (Hac & Hc & Had & Hdws).
  assert (Ht : trim (String c r) = String c r).
  { unfold trim. simpl trim_left. rewrite Hc.
    exact (trim_right_id _ _ Hd Hdws). }
  unfold Loading.js_trim. rewrite Ht, Hd, Hac, Had. reflexivity.
Qed.

Lemma split_on_no_sep sep x :
  Loading.has_char sep x = false → Loading.split_on sep x = [x].
Proof.
  induction x as [|c x IH]; simpl; [reflexivity|].
  intros H. apply orb_false_iff in H as [Hc Hx].
  rewrite Hc, (IH Hx). reflexivity.
Qed.

Lemma split_on_app sep x rest :
  Loading.has_char sep x = false →
  Loading.split_on sep (String.append x (String sep rest))
    = x :: Loading.split_on sep rest.
Proof.
  induction x as [|c x IH]; simpl.
  - intros _. rewrite Ascii.eqb_refl. reflexivity.
  - intros H. apply orb_false_iff in H as [Hc Hx].
    rewrite Hc, (IH Hx). reflexivity.
Qed.

Lemma split_on_concat l :
  Forall Loading.clean l → l ≠ [] →
  Loading.split_on "," (String.concat "," l) = l.
Proof.
  induction 1 as [|x l Hx Hl IH]; intros Hne; [congruence|].
  destruct l as [|y l'].
  - simpl. apply split_on_no_sep, Hx.
  - change (String.concat "," (x :: y :: l'))
      with (String.append x (String "," (String.concat "," (y :: l')))).
    rewrite split_on_app by apply Hx. rewrite IH by discriminate. reflexivity.
Qed.

Lemma mapM_js_trim_clean l :
  Forall Loading.clean l → mapM Loading.js_trim l = Some l.
Proof.
  intros H. apply mapM_Some_2.
  induction H; constructor; auto using js_trim_of_clean.
Qed.

Lemma filter_nonempty_clean l :
  Forall Loading.clean l → List.filter Loading.nonempty l = l.
Proof.
  induction 1 as [|y k Hy _ IH]; [reflexivity|].
  simpl. rewrite (clean_nonempty _ Hy), IH. reflexivity.
Qed.

(** X2. Round trip of the comma-separated form: clean entries joined with
    commas are read back as exactly those entries, in order. *)
Theorem csv_pool_round_trip pool :
  Forall Loading.clean pool →
  Loading.csv_pool (String.concat "," pool) = Some pool.
Proof.
  intros Hclean. unfold Loading.csv_pool.
  destruct pool as [|x l]; [reflexivity|].
  rewrite (split_on_concat _ Hclean) by discriminate.
  rewrite (mapM_js_trim_clean _ Hclean).
  change (Some (List.filter Loading.nonempty (x :: l)) = Some (x :: l)).
  rewrite (filter_nonempty_clean _ Hclean). reflexivity.
Qed.

Lemma default_proxies_hold_no_empty : EmptyString ∉ DEFAULT_PROXIES.
Proof. apply (bool_decide_unpack _). vm_compute. exact I. Qed.

Lemma pool_or_default_nonempty configured : pool_or_default configured ≠ [].
Proof. destruct configured; simpl; discriminate. Qed.

(** X3. The pool that lines 32-45 build is never empty; it is the built-in
    list when [PROXIES] is unset or empty; and unless [PROXIES] parses as
    a JSON array, no entry of the pool is the empty string. *)
Theorem loaded_pool_is_usable raw parsed pool :
  Loading.load_proxies raw parsed = Some pool →
  pool ≠ [] ∧
  (raw = None ∨ raw = Some EmptyString → pool = DEFAULT_PROXIES) ∧
  ((∀ items, parsed ≠ Loading.Yields (JArray items)) → EmptyString ∉ pool).
Proof.
  unfold Loading.load_proxies. intros H.
  destruct raw as [[|c r]|].
  - injection H as <-.
    split_and!; auto using default_proxies_hold_no_empty; discriminate.
  - assert (Hraw : ¬ (Some (String c r) = None ∨ Some (String c r) = Some EmptyString))
      by (intros [?|?]; discriminate).
    destruct (match parsed with
              | Loading.Yields (JArray items) => Loading.strings_of items
              | _ => Loading.csv_pool (String c r)
              end) as [configured|] eqn:E; [|discriminate].
    simpl in H. injection H as <-.
    split_and!; [apply pool_or_default_nonempty | tauto |].
    intros Hnot.
    assert (Hcsv : Loading.csv_pool (String c r) = Some configured).
    { destruct parsed as [|v]; [exact E|].
      destruct v; try exact E. destruct (Hnot items eq_refl). }
    destruct configured as [|x l]; [apply default_proxies_hold_no_empty|].
    simpl. intros Hin.
    pose proof (csv_pool_entries_clean _ _ Hcsv) as Hclean.
    rewrite Forall_forall in Hclean.
    pose proof (clean_nonempty _ (Hclean _ Hin)). discriminate.
  - injection H as <-.
    split_and!; auto using default_proxies_hold_no_empty; discriminate.
Qed.

(** ** The earlier version of the function *)

Section LegacyTheory.

Variable pool : list string.
Variable upstream : nat → Request → Settled Reply.

Local Abbreviation legacy := (Legacy.handler pool upstream).
Local Abbreviation legacy_many := (Legacy.handle_many pool upstream).

(** What an accepted request does: one fetch through the proxy under the
    cursor, the cursor moved on, and an answer that depends on the fetch. *)
Lemma legacy_accepted event history s :
  Legacy.accepted event history →
  let proxyUrl := Legacy.entry pool (Legacy.proxyIndex s) in
  let req := Legacy.request proxyUrl history in
  (legacy event s).2 =
    {| Legacy.proxyIndex :=
         Legacy.num_rem (num_add (Legacy.proxyIndex s) (Num 1))
           (Num (Z.of_nat (length pool)));
       Legacy.fetches := S (Legacy.fetches s);
       Legacy.trace := Legacy.trace s ++ [Fetched proxyUrl req] |} ∧
  (legacy event s).1 =
    match upstream (Legacy.fetches s) req with
    | Rejected _ => Legacy.failed
    | Resolved response =>
        if negb (ok response) then Legacy.failed
        else match json response with
             | Resolved data => Legacy.succeeded data
             | Rejected _ => Legacy.failed
             end
    end.
Proof.
  intros (Hm & Hb & Ht). unfold Legacy.handler.
  rewrite Hm, Hb, Ht. split; reflexivity.
Qed.

(** A request that is not accepted is answered 405, 500 or 400 and leaves
    the state alone. *)
Lemma legacy_not_accepted event s :
  (∀ history, ¬ Legacy.accepted event history) →
  (legacy event s).2 = s ∧
  (statusCode (legacy event s).1 = 405 ∨
   statusCode (legacy event s).1 = 500 ∨
   statusCode (legacy event s).1 = 400).
Proof.
  intros Hno. unfold Legacy.handler.
  destruct (String.eqb_spec (Legacy.httpMethod event) "POST") as [Hm|Hm];
    cbn [negb]; [|split; [reflexivity | auto]].
  destruct (Legacy.event_body event) as [|[history|]] eqn:Hb; cbv beta iota;
    [split; [reflexivity | auto] | | split; [reflexivity | auto]].
  destruct (Legacy.truthy (Some history)) eqn:Ht;
    [|split; [reflexivity | auto]].
  destruct (Hno history). repeat split; assumption.
Qed.

(** X4. In the earlier handler an accepted request costs exactly one fetch,
    and whenever that fetch does not deliver parsed JSON (it is rejected,
    or answered with any status outside 2xx, or its body does not parse)
    the answer is the same bare 500: there is no second attempt, and the
    upstream's status and text are not passed on. *)
Theorem legacy_failure_is_opaque event history s :
  Legacy.accepted event history →
  let req := Legacy.request (Legacy.entry pool (Legacy.proxyIndex s)) history in
  (¬ ∃ data, Legacy.delivers (upstream (Legacy.fetches s) req) data) →
  (legacy event s).1 = Legacy.failed ∧
  Legacy.fetches (legacy event s).2 = S (Legacy.fetches s).
Proof.
  intros Hacc req Hfail.
  destruct (legacy_accepted event history s Hacc) as [Hs Hr].
  rewrite Hs, Hr. split; [|reflexivity]. fold req.
  destruct (upstream (Legacy.fetches s) req) as [response|m] eqn:E; [|reflexivity].
  destruct (ok response) eqn:Hok; simpl; [|reflexivity].
  destruct (json response) as [data|m] eqn:Hj; [|reflexivity].
  destruct Hfail. exists data, response. auto.
Qed.

(** X5. The earlier handler answers 200 exactly when the request is
    accepted and its one fetch delivers parsed JSON.  The fetch is a POST
    to the entry under the cursor followed by the target, with the two
    headers and the model and messages as body.  If the request is
    accepted and that fetch delivers, the answer is the 200 with both
    headers and the delivered JSON as body; and a 200 is answered in no
    other case.  A request that is not accepted leaves the state as it
    was. *)
Theorem legacy_success_iff event s :
  let sent (history : JValue) : Request :=
    {| url := default "undefined"%string
                (match Legacy.proxyIndex s with
                 | Num z => if z <? 0 then None else pool !! Z.to_nat z
                 | NaN => None
                 end) +:+ "https://text.pollinations.ai/openai";
       fetch_method := "POST";
       fetch_headers := [ ("Content-Type", "application/json");
                          ("x-cors-api-key", "temp_1234567890") ]%string;
       fetch_body := Stringified
                       (JObject [ ("model", JString "openai");
                                  ("messages", history) ]%string) |} in
  let relayed (data : JValue) : Response :=
    {| statusCode := 200;
       headers := [ ("Access-Control-Allow-Origin", "*");
                    ("Content-Type", "application/json") ]%string;
       body := JsonBody data |} in
  (∀ history data,
     Legacy.accepted event history →
     Legacy.delivers (upstream (Legacy.fetches s) (sent history)) data →
     (legacy event s).1 = relayed data) ∧
  (statusCode (legacy event s).1 = 200 →
   ∃ history data,
     Legacy.accepted event history ∧
     Legacy.delivers (upstream (Legacy.fetches s) (sent history)) data ∧
     (legacy event s).1 = relayed data) ∧
  ((∀ history, ¬ Legacy.accepted event history) → (legacy event s).2 = s).
Proof.
  intros sent relayed.
  assert (Hsent : sent = Legacy.request
                           (Legacy.entry pool (Legacy.proxyIndex s)))
    by reflexivity.
  assert (Hrel : relayed = Legacy.succeeded) by reflexivity.
  clearbody sent relayed. subst sent relayed.
  split_and!; [| |intros Hno; apply (legacy_not_accepted event s Hno)].
  - intros history data Hacc (response & Hans & Hok & Hj).
    destruct (legacy_accepted event history s Hacc) as [_ Hr].
    rewrite Hr, Hans, Hok. cbn [negb]. rewrite Hj. reflexivity.
  - intros H200.
    destruct (String.eqb_spec (Legacy.httpMethod event) "POST") as [Hm|Hm].
    2: { unfold Legacy.handler in H200.
         destruct (String.eqb_spec (Legacy.httpMethod event) "POST");
           [contradiction | discriminate]. }
    destruct (Legacy.event_body event) as [|[history|]] eqn:Hb.
    1, 3: unfold Legacy.handler in H200; rewrite Hm, Hb in H200; discriminate.
    destruct (Legacy.truthy (Some history)) eqn:Ht.
    2: { unfold Legacy.handler in H200. rewrite Hm, Hb, Ht in H200.
         discriminate. }
    assert (Hacc : Legacy.accepted event history) by (repeat split; assumption).
    destruct (legacy_accepted event history s Hacc) as [_ Hr].
    rewrite Hr in H200 |- *.
    destruct (upstream _ _) as [response|m] eqn:E; [|discriminate].
    destruct (ok response) eqn:Hok; simpl in *; [|discriminate].
    destruct (json response) as [data|m] eqn:Hj; [|discriminate].
    exists history, data. split_and!; auto.
    exists response. auto.
Qed.

Lemma legacy_many_cons event events s :
  legacy_many (event :: events) s =
    ((legacy event s).1 :: (legacy_many events (legacy event s).2).1,
     (legacy_many events (legacy event s).2).2).
Proof.
  simpl. destruct (legacy event s) as [r s1]. cbn [fst snd].
  destruct (legacy_many events s1) as [rs s2]. reflexivity.
Qed.

(** X6. Round robin without health: when the cursor is within the pool,
    accepted requests are sent through the pool's entries in cyclic order
    from the cursor, one each, whatever the fetches come to; the cursor
    ends that many places further round. *)
Theorem legacy_round_robin events : ∀ s (i : Z),
  Legacy.proxyIndex s = Num i → 0 ≤ i < Z.of_nat (length pool) →
  Forall (λ event, ∃ history, Legacy.accepted event history) events →
  Legacy.proxyIndex (legacy_many events s).2 =
    Num ((i + Z.of_nat (length events)) `mod` Z.of_nat (length pool)) ∧
  ∃ new,
    Legacy.trace (legacy_many events s).2 = Legacy.trace s ++ new ∧
    length new = length events ∧
    ∀ (j : nat) e, new !! j = Some e →
      ∃ req,
        e = Fetched
              (pool !! Z.to_nat ((i + Z.of_nat j) `mod` Z.of_nat (length pool)))
              req.
Proof.
  induction events as [|event events IH]; intros s i Hi Hrange Hacc.
  - simpl. split.
    + rewrite Z.add_0_r, Z.mod_small by lia. exact Hi.
    + exists []. rewrite app_nil_r. split_and!; auto.
      intros j e Hj. discriminate.
  - inversion Hacc as [|? ? [history Hh] Hrest]; subst.
    rewrite legacy_many_cons.
    destruct (legacy_accepted event history s Hh) as [Hs _].
    cbv zeta in Hs.
    assert (Hrem : Z.rem (i + 1) (Z.of_nat (length pool))
                   = (i + 1) `mod` Z.of_nat (length pool))
      by (apply Z.rem_mod_nonneg; lia).
    assert (Hnext : Legacy.proxyIndex (legacy event s).2
                    = Num ((i + 1) `mod` Z.of_nat (length pool))).
    { rewrite Hs, Hi. simpl.
      destruct (Z.eqb_spec (Z.of_nat (length pool)) 0); [lia|].
      rewrite Hrem. reflexivity. }
    assert (Hbound : 0 ≤ (i + 1) `mod` Z.of_nat (length pool)
                     < Z.of_nat (length pool))
      by (apply Z.mod_pos_bound; lia).
    destruct (IH (legacy event s).2 _ Hnext Hbound Hrest)
      as (Hidx & new & Htr & Hlen & Hnew).
    simpl fst. simpl snd. split.
    + rewrite Hidx. f_equal. rewrite Zplus_mod_idemp_l. f_equal.
      simpl length. lia.
    + exists (Fetched (Legacy.entry pool (Legacy.proxyIndex s))
                (Legacy.request (Legacy.entry pool (Legacy.proxyIndex s))
                   history) :: new).
      split_and!.
      * rewrite Htr, Hs. simpl. rewrite <- app_assoc. reflexivity.
      * simpl. lia.
      * intros j e Hj. destruct j as [|j].
        -- simpl in Hj. injection Hj as <-. eexists. f_equal.
           rewrite Hi. simpl.
           destruct (Z.ltb_spec i 0); [lia|].
           rewrite Z.add_0_r, Z.mod_small by lia. reflexivity.
        -- simpl in Hj. destruct (Hnew j e Hj) as [req ->].
           exists req. f_equal. f_equal. f_equal.
           rewrite Zplus_mod_idemp_l. f_equal. lia.
Qed.

End LegacyTheory.

(** ** The picker, once more *)

Section ServingTheory.

Variable PROXIES : list string.
Variable cfg : Config.
Variable clock : nat → Z.
Variable upstream : nat → Request → Settled Reply.

Local Abbreviation n := (Z.of_nat (length PROXIES)).
Local Abbreviation pick_loop := (pick_loop PROXIES clock).
Local Abbreviation pickNextProxy := (pickNextProxy PROXIES clock).
Local Abbreviation markProxyDown := (markProxyDown cfg clock).
Local Abbreviation cand := (cand PROXIES).
Local Abbreviation in_pool := (in_pool PROXIES).
Local Abbreviation rotation := (rotation PROXIES).
Local Abbreviation skipped := (skipped PROXIES clock).
Local Abbreviation retry_loop := (retry_loop PROXIES cfg clock upstream).
Local Abbreviation settle := (settle cfg clock).
Local Abbreviation caught := (caught cfg clock).
Local Abbreviation handler := (handler PROXIES cfg clock upstream).
Local Abbreviation handle_many :=
  (Serving.handle_many PROXIES cfg clock upstream).
Local Abbreviation relay_effect := (Serving.relay_effect PROXIES cfg).

(** With the clock standing at [t], the loop returns the first of the
    candidates ahead that passes the test. *)
Lemma pick_loop_find (t : Z) k : ∀ s (A : list string),
  in_pool s → (0 < length PROXIES)%nat → length A = k →
  (∀ o, (o < k)%nat → cand s o = A !! o) →
  (∀ j, (reads s ≤ j < reads s + k)%nat → clock j = t) →
  (pick_loop k s).1 = List.find (healthy_at (proxyHealth s) t) A.
Proof.
  induction k as [|k IH]; intros s A Hs Hn Hlen Hcand Hclock.
  - destruct A; [reflexivity | discriminate].
  - destruct A as [|c A]; [discriminate|].
    destruct (pick_loop_step PROXIES clock k s Hs Hn) as (c' & Hc' & ->).
    rewrite (Hcand 0%nat) in Hc' by lia. injection Hc' as <-.
    cbv zeta. simpl List.find. unfold healthy_at at 1.
    destruct (proxyHealth s !! c) as [d|]; [|reflexivity].
    rewrite (Hclock (reads s)) by lia.
    destruct (num_le (num_or0 d) (Num t)); [reflexivity|].
    refine (IH (with_reads (S (reads s))
                  (with_index ((proxyIndex s + 1) `mod` n) s)) A _ Hn _ _ _).
    + unfold Relay.in_pool. simpl.
      assert (0 ≤ (proxyIndex s + 1) `mod` n < n)
        by (apply Z.mod_pos_bound; lia).
      lia.
    + simpl in Hlen. lia.
    + intros o Ho.
      rewrite (cand_shift PROXIES s _ 1 Hs Hn) by reflexivity.
      rewrite Hcand by lia. reflexivity.
    + intros j Hj. simpl in Hj. apply Hclock. lia.
Qed.

(** X7. The picker as a search: when the clock shows the same time [t] at
    every reading of a call, [pickNextProxy] returns the first proxy, in
    the pool's order rotated to begin just after the cursor, that has no
    record or whose record is at most [t]; and [null] when there is none. *)
Theorem pick_is_first_healthy (t : Z) s :
  in_pool s →
  (∀ j, (reads s ≤ j < reads s + length PROXIES)%nat → clock j = t) →
  (pickNextProxy s).1 = List.find (healthy_at (proxyHealth s) t) (rotation s).
Proof.
  intros Hs Hclock. unfold Relay.pickNextProxy.
  destruct (length PROXIES) as [|m] eqn:Hlen.
  - apply length_zero_iff_nil in Hlen. unfold Relay.rotation, rotate.
    rewrite Hlen, drop_nil, take_nil. reflexivity.
  - rewrite <- Hlen in *. apply (pick_loop_find t).
    + exact Hs.
    + lia.
    + unfold Relay.rotation. apply length_rotate.
    + intros o Ho. symmetry. apply rotation_lookup; assumption.
    + exact Hclock.
Qed.

(** X8. Whatever the clock does, a call of [pickNextProxy] from a cursor
    within the pool leaves the cursor within the pool and the health map
    as it was; what it returns is a member of the pool that has no record
    or passed the test at a reading made during the call; and it returns
    [null] only after finding every member of the pool down at such a
    reading. *)
Theorem pick_result_is_sound s :
  in_pool s →
  in_pool (pickNextProxy s).2 ∧
  proxyHealth (pickNextProxy s).2 = proxyHealth s ∧
  match (pickNextProxy s).1 with
  | Some p =>
      p ∈ PROXIES ∧
      (proxyHealth s !! p = None ∨
       ∃ j, (reads s ≤ j < reads (pickNextProxy s).2)%nat ∧
            healthy_at (proxyHealth s) (clock j) p = true)
  | None =>
      ∀ p, p ∈ PROXIES →
        ∃ j, (reads s ≤ j < reads (pickNextProxy s).2)%nat ∧
             healthy_at (proxyHealth s) (clock j) p = false
  end.
Proof.
  intros Hs.
  destruct (pick_spec PROXIES clock s Hs)
    as (it & r & Hh & _ & _ & _ & _ & _ & _ & Hres).
  split; [exact (pick_in_pool PROXIES clock s Hs)|]. split; [exact Hh|].
  cbv zeta in Hres. destruct ((pickNextProxy s).1) as [p|].
  - destruct Hres as (o & _ & Hc & _ & Hup). split; [|exact Hup].
    eapply list_elem_of_lookup_2, Hc.
  - destruct Hres as [_ Hsk]. intros p Hp.
    rewrite <- (rotation_Permutation PROXIES s) in Hp.
    apply list_elem_of_lookup in Hp as [o Ho].
    assert (Hlt : (o < length PROXIES)%nat).
    { apply lookup_lt_Some in Ho. unfold Relay.rotation in Ho.
      rewrite length_rotate in Ho. exact Ho. }
    rewrite (rotation_lookup PROXIES s o Hs Hlt) in Ho.
    destruct (Hsk o Hlt) as (q & j & Hq & Hj & Hdown).
    rewrite Ho in Hq. injection Hq as <-. eauto.
Qed.

(** ** What a run of the handler may do *)

Lemma pick_loop_member k : ∀ s p,
  (pick_loop k s).1 = Some p → p ∈ PROXIES.
Proof.
  induction k as [|k IH]; intros s p; simpl; [discriminate|].
  destruct (entry PROXIES _) as [c|] eqn:Hc; [|discriminate].
  assert (Hin : c ∈ PROXIES).
  { unfold entry in Hc. destruct (_ <? 0); [discriminate|].
    eapply list_elem_of_lookup_2, Hc. }
  unfold mbind, Gw_bind. rewrite is_up_spec.
  destruct (healthy_at _ _ c).
  - simpl. intros [= <-]. exact Hin.
  - apply IH.
Qed.

Lemma pick_member s p : (pickNextProxy s).1 = Some p → p ∈ PROXIES.
Proof.
  unfold Relay.pickNextProxy. destruct (length PROXIES) as [|m];
    [discriminate | apply pick_loop_member].
Qed.

(** The proxy of an attempt is none, or a non-empty member of the pool. *)
Lemma used_is_member s :
  match or_null (pickNextProxy s).1 with
  | Some proxy => proxy ∈ PROXIES ∧ proxy ≠ EmptyString
  | None => True
  end.
Proof.
  destruct ((pickNextProxy s).1) as [[|c r]|] eqn:E; simpl; auto.
  split; [exact (pick_member s _ E) | discriminate].
Qed.

(** How an iteration ends once the fetch has settled: with a response,
    after one reading of the clock; or back at the head of the loop, after
    marking the proxy of the attempt (if any) and waiting. *)
Lemma settle_cases used a start next outcome s :
  (∃ resp, settle used a start next outcome s = (resp, (now clock s).2)) ∨
  (∃ le sX, (sX = s ∨ sX = (now clock s).2) ∧
     settle used a start next outcome s =
       next le (sleep (backoff cfg a) (mark_if_used cfg clock used sX).2).2).
Proof.
  assert (Hc : ∀ message sX, (sX = s ∨ sX = (now clock s).2) →
    ∃ le sX', (sX' = s ∨ sX' = (now clock s).2) ∧
      caught used a next message sX =
        next le (sleep (backoff cfg a) (mark_if_used cfg clock used sX').2).2).
  { intros message sX HsX. rewrite caught_eq. eauto. }
  destruct outcome as [res|message]; [|right; apply Hc; auto].
  destruct (ok res) eqn:Hok.
  - unfold Relay.settle. unfold mbind at 1. unfold Gw_bind at 1.
    simpl. rewrite Hok. simpl.
    destruct (includes _ _).
    + destruct (json res); [left; eauto | right; apply Hc; auto].
    + destruct (text res); [left; eauto | right; apply Hc; auto].
  - destruct used as [px|].
    + destruct (is_5xx (status res)) eqn:H5.
      * right. rewrite (settle_5xx cfg clock px a start next res s H5).
        eexists _, (now clock s).2. split; [auto | reflexivity].
      * left. rewrite settle_direct by auto. eauto.
    + left. rewrite settle_direct by auto. eauto.
Qed.

(** A readable 2xx ends the run with the success response. *)
Lemma settle_readable used a start next res data s :
  ok res = true → Serving.readable res data →
  settle used a start next (Resolved res) s =
    (success used (clock (reads s) - start) data, (now clock s).2).
Proof.
  intros Hok Hdata. unfold Relay.settle. unfold mbind at 1.
  unfold Gw_bind at 1. simpl. rewrite Hok. simpl.
  unfold Serving.readable in Hdata. destruct (includes _ _).
  - rewrite Hdata. reflexivity.
  - destruct Hdata as (t & -> & ->). reflexivity.
Qed.

Lemma mark_if_used_frame used s :
  trace (mark_if_used cfg clock used s).2 = trace s ∧
  fetches (mark_if_used cfg clock used s).2 = fetches s ∧
  ∀ q, used ≠ Some q →
       proxyHealth (mark_if_used cfg clock used s).2 !! q = proxyHealth s !! q.
Proof.
  destruct used as [px|]; simpl; split_and!; auto.
  intros q Hq. apply lookup_insert_ne. congruence.
Qed.

Lemma relay_effect_wider p target lo hi lo' hi' e :
  lo' ≤ lo → hi ≤ hi' →
  relay_effect p target lo hi e → relay_effect p target lo' hi' e.
Proof.
  intros Hlo Hhi. destruct e as [used req|ms]; simpl; [auto|].
  intros (i & Hi & ->). exists i. split; [lia | reflexivity].
Qed.

(** The effects of the loop with [r] iterations left at attempt [a]. *)
Lemma retry_loop_effects p target r : ∀ a le s,
  ∃ new,
    trace (retry_loop p target r a le s).2 = trace s ++ new ∧
    Forall (relay_effect p target a (a + Z.of_nat r)) new ∧
    fetches (retry_loop p target r a le s).2 =
      (fetches s + length (List.filter Serving.is_fetch new))%nat ∧
    (length (List.filter Serving.is_fetch new) ≤ r)%nat ∧
    ((0 < r)%nat → (0 < length (List.filter Serving.is_fetch new))%nat) ∧
    ∀ q, q ∉ PROXIES →
         proxyHealth (retry_loop p target r a le s).2 !! q = proxyHealth s !! q.
Proof.
  induction r as [|r IH]; intros a le s.
  - exists []. simpl. rewrite app_nil_r. split_and!; auto; lia.
  - rewrite retry_loop_S. cbv zeta.
    destruct (pick_frame PROXIES clock s) as (Hh & Hf & Ht & _).
    pose proof (used_is_member s) as Hused.
    set (used := or_null (pickNextProxy s).1) in *.
    set (req := request_for p target used).
    set (s3 := with_effect _ _ _).
    assert (Ht3 : trace s3 = trace s ++ [Fetched used req])
      by (rewrite <- Ht; reflexivity).
    assert (Hf3 : fetches s3 = S (fetches s)) by (rewrite <- Hf; reflexivity).
    assert (Hh3 : proxyHealth s3 = proxyHealth s) by exact Hh.
    assert (Hfetch : relay_effect p target a (a + Z.of_nat (S r))
                       (Fetched used req)) by (split; [reflexivity | exact Hused]).
    destruct (settle_cases used a (clock (reads (pickNextProxy s).2))
                (retry_loop p target r (a + 1)) (upstream (fetches (pickNextProxy s).2) req) s3)
      as [[resp ->] | (le' & sX & HsX & ->)].
    + exists [Fetched used req]. simpl. split_and!; auto; try lia.
      intros q _. exact (f_equal (λ h, h !! q) Hh3).
    + assert (HX : trace sX = trace s3 ∧ fetches sX = fetches s3 ∧
                   proxyHealth sX = proxyHealth s3)
        by (destruct HsX as [->| ->]; auto).
      destruct HX as (HtX & HfX & HhX).
      destruct (mark_if_used_frame used sX) as (Htm & Hfm & Hhm).
      set (s4 := (mark_if_used cfg clock used sX).2) in *.
      set (s5 := (sleep (backoff cfg a) s4).2).
      destruct (IH (a + 1) le' s5) as (new & Htr & Hall & Hfe & Hle & _ & Hfr).
      exists (Fetched used req :: Slept (backoff cfg a) :: new). split_and!.
      * rewrite Htr.
        change (trace s5) with (trace s4 ++ [Slept (backoff cfg a)]).
        rewrite Htm, HtX, Ht3, <- !app_assoc. reflexivity.
      * constructor; [exact Hfetch|]. constructor.
        -- exists a. split; [lia | reflexivity].
        -- eapply Forall_impl; [exact Hall|]. intros e.
           apply relay_effect_wider; lia.
      * rewrite Hfe. change (fetches s5) with (fetches s4).
        rewrite Hfm, HfX, Hf3. simpl. lia.
      * simpl. lia.
      * intros _. simpl. lia.
      * intros q Hq. rewrite (Hfr q Hq).
        change (proxyHealth s5) with (proxyHealth s4).
        rewrite Hhm, HhX, Hh3; [reflexivity|].
        intros Hu. rewrite Hu in Hused. destruct Hused as [Hin _].
        contradiction.
Qed.

(** An event is relayed, or the handler leaves the state alone. *)
Lemma handler_cases event s :
  (∃ p target, relays event p target) ∨
  ((∀ p target, ¬ relays event p target) ∧ (handler event s).2 = s).
Proof.
  unfold Relay.handler, relays.
  destruct (String.eqb_spec (httpMethod event) "OPTIONS") as [Ho|Ho].
  { right. split; [|reflexivity]. intros p target (Hm & _).
    rewrite Ho in Hm. discriminate. }
  destruct (String.eqb_spec (httpMethod event) "POST") as [Hm|Hm];
    cbn [negb].
  2: { right. split; [|reflexivity]. intros p target (Hm' & _). contradiction. }
  destruct (event_body event) as [e|p] eqn:Hb.
  { right. split; [|reflexivity]. intros p target (_ & Hb' & _). discriminate. }
  destruct (targetUrl p) as [[|c t]|] eqn:Ht.
  - right. split; [|reflexivity]. intros p' target (_ & [= <-] & Ht' & Hne).
    congruence.
  - left. exists p, (String c t). split_and!; auto; discriminate.
  - right. split; [|reflexivity]. intros p' target (_ & [= <-] & Ht' & _).
    congruence.
Qed.

(** X9. Bounded retries: whatever the upstream does, one invocation of the
    handler makes at most [MAX_RETRIES] fetches; it makes at least one
    when the request is relayed and [MAX_RETRIES] is at least 1; and a
    request that is not relayed (preflight, wrong method, unusable body,
    missing [targetUrl]) leaves the whole state, cursor included, as it
    was. *)
Theorem attempts_are_bounded event s :
  (fetches s ≤ fetches (handler event s).2
   ≤ fetches s + iterations (MAX_RETRIES cfg))%nat ∧
  (∀ p target, relays event p target →
     (0 < iterations (MAX_RETRIES cfg))%nat →
     (fetches s < fetches (handler event s).2)%nat) ∧
  ((∀ p target, ¬ relays event p target) → (handler event s).2 = s).
Proof.
  destruct (handler_cases event s) as [(p & target & Hev) | [Hno Hs]].
  - rewrite (handler_relays PROXIES cfg clock upstream _ _ _ s Hev).
    destruct (retry_loop_effects p target (iterations (MAX_RETRIES cfg)) 0
                JNull s) as (new & _ & _ & Hfe & Hle & Hpos & _).
    split; [lia | split].
    + intros _ _ _ Hit. specialize (Hpos Hit). lia.
    + intros Hno. destruct (Hno p target Hev).
  - rewrite Hs. split; [lia | split]; [|auto].
    intros p target Hev. destruct (Hno p target Hev).
Qed.

(** X10. Where the requests go: during one invocation every fetch is sent
    with the payload's method ([POST] when it has none), its headers (none
    when it has none) and its body (as JSON text when it is an object or
    an array); the URL is the target itself when no proxy was selected,
    and otherwise a non-empty proxy of the pool followed by the target;
    every wait is [BACKOFF_BASE_MS * 2^attempt] for one of the attempts
    [0 .. MAX_RETRIES - 1]; nothing else is added to the trace. *)
Theorem fetches_go_to_target_or_pool event p target s :
  relays event p target →
  ∃ new,
    trace (handler event s).2 = trace s ++ new ∧
    Forall
      (λ e,
         match e with
         | Fetched used req =>
             req =
               {| url := match used with
                         | Some proxy => proxy +:+ target
                         | None => target
                         end;
                  fetch_method := default "POST"%string (method p);
                  fetch_headers := default [] (payload_headers p);
                  fetch_body := match payload_body p with
                                | Some (JArray _ as v)
                                | Some (JObject _ as v) => Stringified v
                                | reqBody => Passed reqBody
                                end |} ∧
             match used with
             | Some proxy => proxy ∈ PROXIES ∧ proxy ≠ EmptyString
             | None => True
             end
         | Slept ms =>
             ∃ attempt,
               0 ≤ attempt < Z.of_nat (iterations (MAX_RETRIES cfg)) ∧
               ms = num_mul (BACKOFF_BASE_MS cfg) (Num (2 ^ attempt))
         end) new.
Proof.
  intros Hev. rewrite (handler_relays PROXIES cfg clock upstream _ _ _ s Hev).
  destruct (retry_loop_effects p target (iterations (MAX_RETRIES cfg)) 0
              JNull s) as (new & Htr & Hall & _).
  exists new. split; [exact Htr|].
  eapply Forall_impl; [exact Hall|].
  intros [used req|ms] He; exact He.
Qed.

(** X11. The health map holds records of pool members only: an invocation
    of the handler, whatever the event and the upstream, leaves the entry
    of every string outside the pool as it was. *)
Theorem only_pool_members_are_marked event s q :
  q ∉ PROXIES →
  proxyHealth (handler event s).2 !! q = proxyHealth s !! q.
Proof.
  intros Hq.
  destruct (handler_cases event s) as [(p & target & Hev) | [_ Hs]].
  - rewrite (handler_relays PROXIES cfg clock upstream _ _ _ s Hev).
    destruct (retry_loop_effects p target (iterations (MAX_RETRIES cfg)) 0
                JNull s) as (new & _ & _ & _ & _ & _ & Hfr).
    exact (Hfr q Hq).
  - rewrite Hs. reflexivity.
Qed.

(** ** Runs that deliver, and runs that do not *)

(** X12. A readable 2xx answer to the first attempt ends the run: the
    response is a 200 (whatever the 2xx status of the answer was) whose
    body names the proxy used, or [null], the time between the two
    readings of the clock around the fetch, and the answer's data; that
    time is not negative when the clock does not run backwards; nothing is
    marked down and nothing is waited for. *)
Theorem readable_answer_is_relayed event p target s res data :
  let used := or_null (pickNextProxy s).1 in
  let req := request_for p target used in
  let start := reads (pickNextProxy s).2 in
  relays event p target →
  (0 < iterations (MAX_RETRIES cfg))%nat →
  upstream (fetches s) req = Resolved res →
  ok res = true →
  Serving.readable res data →
  (handler event s).1 =
    {| statusCode := 200;
       headers := json_cors;
       body := JsonBody (JObject [ ("success", JBool true);
                                   ("proxy", json_of_proxy used);
                                   ("latency",
                                    JNumber (clock (S start) - clock start));
                                   ("data", data) ]%string) |} ∧
  (monotone clock → 0 ≤ clock (S start) - clock start) ∧
  proxyHealth (handler event s).2 = proxyHealth s ∧
  trace (handler event s).2 = trace s ++ [Fetched used req].
Proof.
  intros used req start Hev Hit Hup Hok Hdata.
  rewrite (handler_relays PROXIES cfg clock upstream _ _ _ s Hev).
  destruct (iterations (MAX_RETRIES cfg)) as [|r]; [lia|].
  rewrite retry_loop_S.
  destruct (pick_frame PROXIES clock s) as (Hh & Hf & Ht & _).
  cbv zeta. fold used. fold req. rewrite Hf, Hup.
  rewrite (settle_readable _ _ _ _ _ data) by assumption. simpl.
  rewrite Hh, Ht. split_and!; auto.
  intros Hmono. specialize (Hmono start (S start)). lia.
Qed.

Lemma settle_undelivered used a start next outcome message s :
  Serving.fails_to_deliver outcome message →
  ∃ sX, (sX = s ∨ sX = (now clock s).2) ∧
    settle used a start next outcome s =
      next (error_of_exception message used a)
        (sleep (backoff cfg a) (mark_if_used cfg clock used sX).2).2.
Proof.
  destruct outcome as [res|m]; cbn [Serving.fails_to_deliver].
  - intros Hres. exists (now clock s).2. split; [auto|].
    rewrite (settle_unreadable cfg clock used a start next res message s Hres).
    apply caught_eq.
  - intros ->. exists s. split; [auto|].
    change (settle used a start next (Rejected message) s)
      with (caught used a next message s).
    apply caught_eq.
Qed.

(** A run in which no attempt delivers. *)
Lemma retry_loop_undelivered p target :
  (∀ k req, ∃ message, Serving.fails_to_deliver (upstream k req) message) →
  ∀ r a le s,
  ∃ (selected : list (option string)) (le' : JValue),
    length selected = r ∧
    (retry_loop p target r a le s).1 = exhausted le' ∧
    trace (retry_loop p target r a le s).2 =
      trace s ++ retried cfg p target selected a ∧
    match r with
    | O => le' = le
    | S _ => ∃ message used,
               le' = error_of_exception message used (a + Z.of_nat r - 1)
    end.
Proof.
  intros Hup. induction r as [|r IH]; intros a le s.
  - exists [], le. simpl. rewrite app_nil_r. split_and!; auto.
  - rewrite retry_loop_S. cbv zeta.
    destruct (pick_frame PROXIES clock s) as (_ & _ & Ht & _).
    set (used := or_null (pickNextProxy s).1).
    set (req := request_for p target used).
    set (s3 := with_effect _ _ _).
    assert (Ht3 : trace s3 = trace s ++ [Fetched used req])
      by (rewrite <- Ht; reflexivity).
    destruct (Hup (fetches (pickNextProxy s).2) req) as (message & Hfail).
    destruct (settle_undelivered used a (clock (reads (pickNextProxy s).2))
                (retry_loop p target r (a + 1)) _ message s3 Hfail)
      as (sX & HsX & ->).
    assert (HtX : trace sX = trace s3) by (destruct HsX as [->| ->]; auto).
    destruct (mark_if_used_frame used sX) as (Htm & _).
    set (s4 := (mark_if_used cfg clock used sX).2) in *.
    set (s5 := (sleep (backoff cfg a) s4).2).
    destruct (IH (a + 1) (error_of_exception message used a) s5)
      as (sel & le' & Hlen & Hresp & Htr & Hle).
    exists (used :: sel), le'. split_and!.
    + simpl. lia.
    + exact Hresp.
    + rewrite Htr.
      change (trace s5) with (trace s4 ++ [Slept (backoff cfg a)]).
      rewrite Htm, HtX, Ht3, <- !app_assoc. reflexivity.
    + destruct r as [|r'].
      * subst le'. exists message, used. f_equal. lia.
      * destruct Hle as (m' & u' & ->). exists m', u'. f_equal. lia.
Qed.

Lemma fetches_of_retried p target selected : ∀ a,
  length (List.filter Serving.is_fetch (retried cfg p target selected a)) =
    length selected.
Proof.
  induction selected as [|used rest IH]; intros a; simpl;
    [reflexivity | rewrite IH; reflexivity].
Qed.

(** The waits of [k] attempts from attempt [a] on: a geometric sum. *)
Lemma total_wait_retried p target (b : Z) selected : ∀ a,
  0 ≤ a → BACKOFF_BASE_MS cfg = Num b →
  Serving.total_wait (retried cfg p target selected a) =
    Num (b * (2 ^ (a + Z.of_nat (length selected)) - 2 ^ a)).
Proof.
  induction selected as [|used rest IH]; intros a Ha Hb.
  - simpl. rewrite Z.add_0_r, Z.sub_diag, Z.mul_0_r. reflexivity.
  - change (Serving.total_wait (retried cfg p target (used :: rest) a))
      with (num_add (backoff cfg a)
              (Serving.total_wait (retried cfg p target rest (a + 1)))).
    rewrite IH by (auto; lia). unfold backoff, pow2. rewrite Hb.
    cbn [num_mul num_add length]. f_equal.
    replace (a + Z.of_nat (S (length rest)))
      with (a + 1 + Z.of_nat (length rest)) by lia.
    rewrite (Z.pow_add_r 2 a 1) by lia. lia.
Qed.

(** X13. When no attempt delivers (every fetch is rejected, times out, or
    answers 2xx with a body that cannot be read), the handler makes exactly
    [MAX_RETRIES] fetches, whatever the state of the pool, and answers 502
    with the exception of the last attempt, numbered [MAX_RETRIES - 1], as
    [lastError].  It waits after every attempt, the last one included: with
    [BACKOFF_BASE_MS = b] the waits add up to [b * (2 ^ MAX_RETRIES - 1)]. *)
Theorem undelivered_run_waits_in_full event p target s (b : Z) :
  relays event p target →
  BACKOFF_BASE_MS cfg = Num b →
  (∀ k req, ∃ message, Serving.fails_to_deliver (upstream k req) message) →
  ∃ new lastError,
    trace (handler event s).2 = trace s ++ new ∧
    length (List.filter Serving.is_fetch new) = iterations (MAX_RETRIES cfg) ∧
    Serving.total_wait new =
      Num (b * (2 ^ Z.of_nat (iterations (MAX_RETRIES cfg)) - 1)) ∧
    (handler event s).1 =
      {| statusCode := 502;
         headers := json_cors;
         body := JsonBody (JObject [ ("error", JString "All attempts failed");
                                     ("lastError", lastError) ]%string) |} ∧
    ((0 < iterations (MAX_RETRIES cfg))%nat →
     ∃ message used,
       lastError =
         JObject [ ("error", JString message); ("proxy", json_of_proxy used);
                   ("attempt",
                    JNumber (Z.of_nat (iterations (MAX_RETRIES cfg)) - 1))
                 ]%string) ∧
    (iterations (MAX_RETRIES cfg) = 0%nat → lastError = JNull).
Proof.
  intros Hev Hb Hup.
  rewrite (handler_relays PROXIES cfg clock upstream _ _ _ s Hev).
  destruct (retry_loop_undelivered p target Hup
              (iterations (MAX_RETRIES cfg)) 0 JNull s)
    as (sel & le & Hlen & Hresp & Htr & Hle).
  exists (retried cfg p target sel 0), le. split_and!.
  - exact Htr.
  - rewrite fetches_of_retried. exact Hlen.
  - rewrite (total_wait_retried p target b sel 0) by (auto; lia).
    rewrite Hlen, Z.add_0_l. reflexivity.
  - exact Hresp.
  - intros Hit. destruct (iterations (MAX_RETRIES cfg)) as [|r]; [lia|].
    destruct Hle as (message & used & ->). exists message, used.
    unfold error_of_exception. repeat f_equal.
  - intros Hit. rewrite Hit in Hle. exact Hle.
Qed.

Lemma pick_all_down s :
  in_pool s →
  (∀ q j, q ∈ PROXIES → (reads s ≤ j < reads s + length PROXIES)%nat →
          healthy_at (proxyHealth s) (clock j) q = false) →
  (pickNextProxy s).1 = None.
Proof.
  intros Hs Hdown. unfold Relay.pickNextProxy.
  destruct (length PROXIES) as [|m] eqn:Hlen; [reflexivity|].
  rewrite <- Hlen in *.
  apply (pick_loop_all_down PROXIES clock (length PROXIES) s Hs);
    [lia | exact Hdown].
Qed.

(** X14. With every proxy of the pool marked down, the request is not
    refused: the first fetch of the run goes to the target itself, through
    no proxy.  An answer to it that is not 2xx, a 5xx included, is then
    final: the handler returns the upstream's status with
    [{ error, details }], makes no further attempt and marks nothing. *)
Theorem all_down_goes_direct event p target s :
  relays event p target →
  (0 < iterations (MAX_RETRIES cfg))%nat →
  in_pool s →
  (∀ q j, q ∈ PROXIES → (reads s ≤ j < reads s + length PROXIES)%nat →
          healthy_at (proxyHealth s) (clock j) q = false) →
  let req := request_for p target None in
  url req = target ∧
  (∃ rest, trace (handler event s).2 = trace s ++ Fetched None req :: rest) ∧
  (∀ res, upstream (fetches s) req = Resolved res → ok res = false →
     (handler event s).1 =
       {| statusCode := status res;
          headers := json_cors;
          body := JsonBody (JObject [ ("error",
                                       JString "Upstream returned error");
                                      ("details", JString (body_text res))
                                    ]%string) |} ∧
     trace (handler event s).2 = trace s ++ [Fetched None req] ∧
     proxyHealth (handler event s).2 = proxyHealth s).
Proof.
  intros Hev Hit Hs Hdown req.
  rewrite (handler_relays PROXIES cfg clock upstream _ _ _ s Hev).
  destruct (iterations (MAX_RETRIES cfg)) as [|r]; [lia|].
  rewrite retry_loop_S. cbv zeta.
  rewrite (pick_all_down s Hs Hdown).
  change (or_null None) with (@None string). fold req.
  destruct (pick_frame PROXIES clock s) as (Hh & Hf & Ht & _).
  set (s3 := with_effect _ _ _).
  assert (Ht3 : trace s3 = trace s ++ [Fetched None req])
    by (rewrite <- Ht; reflexivity).
  assert (Hh3 : proxyHealth s3 = proxyHealth s) by exact Hh.
  split; [reflexivity|]. split.
  - destruct (settle_cases None 0 (clock (reads (pickNextProxy s).2))
                (retry_loop p target r (0 + 1))
                (upstream (fetches (pickNextProxy s).2) req) s3)
      as [[resp ->] | (le' & sX & HsX & ->)].
    + exists []. exact Ht3.
    + destruct (retry_loop_effects p target r (0 + 1) le'
                  (sleep (backoff cfg 0) (mark_if_used cfg clock None sX).2).2)
        as (new & -> & _).
      exists (Slept (backoff cfg 0) :: new).
      assert (HtX : trace sX = trace s3) by (destruct HsX as [->| ->]; auto).
      change (trace (sleep (backoff cfg 0)
                       (mark_if_used cfg clock None sX).2).2)
        with (trace sX ++ [Slept (backoff cfg 0)]).
      rewrite HtX, Ht3, <- !app_assoc. reflexivity.
  - intros res Hup Hok. rewrite Hf, Hup.
    rewrite settle_direct by auto. simpl. rewrite Hh, Ht. auto.
Qed.

(** ** What a run never does *)

(** The three ways in which an iteration ends once the fetch has settled. *)
Lemma settle_outcomes used a start next outcome s :
  (∃ res data, outcome = Resolved res ∧ ok res = true ∧
     Serving.readable res data ∧
     settle used a start next outcome s =
       (success used (clock (reads s) - start) data, (now clock s).2)) ∨
  (∃ res, outcome = Resolved res ∧ ok res = false ∧
     settle used a start next outcome s =
       (upstream_error (status res) (body_text res), (now clock s).2)) ∨
  (∃ le sX, (sX = s ∨ sX = (now clock s).2) ∧
     settle used a start next outcome s =
       next le (sleep (backoff cfg a) (mark_if_used cfg clock used sX).2).2).
Proof.
  assert (Hc : ∀ message sX, (sX = s ∨ sX = (now clock s).2) →
    ∃ le sX', (sX' = s ∨ sX' = (now clock s).2) ∧
      caught used a next message sX =
        next le (sleep (backoff cfg a) (mark_if_used cfg clock used sX').2).2).
  { intros message sX HsX. rewrite caught_eq. eauto. }
  destruct outcome as [res|message];
    [|right; right; apply (Hc message s); auto].
  destruct (ok res) eqn:Hok.
  - unfold Relay.settle. unfold mbind at 1. unfold Gw_bind at 1.
    simpl. rewrite Hok. simpl. unfold Serving.readable.
    destruct (includes _ _) eqn:Hinc.
    + destruct (json res) as [v|message] eqn:Hj;
        [|right; right; apply Hc; auto].
      left. exists res, v. rewrite Hinc. auto.
    + destruct (text res) as [t|message] eqn:Htx;
        [|right; right; apply Hc; auto].
      left. exists res, (JString t). rewrite Hinc. split_and!; eauto.
  - destruct used as [px|].
    + destruct (is_5xx (status res)) eqn:H5.
      * right. right.
        rewrite (settle_5xx cfg clock px a start next res s H5).
        eexists _, (now clock s).2. split; [auto | reflexivity].
      * right. left. exists res. rewrite settle_direct by auto. auto.
    + right. left. exists res. rewrite settle_direct by auto. auto.
Qed.

Lemma retry_loop_fetches_le p target r a le s :
  (fetches s ≤ fetches (retry_loop p target r a le s).2)%nat.
Proof.
  destruct (retry_loop_effects p target r a le s) as (new & _ & _ & -> & _).
  lia.
Qed.

Lemma retry_loop_200 p target r : ∀ a le s,
  statusCode (retry_loop p target r a le s).1 = 200 →
  ∃ (k : nat) used res data latency,
    (fetches s ≤ k < fetches (retry_loop p target r a le s).2)%nat ∧
    upstream k (request_for p target used) = Resolved res ∧
    ok res = true ∧ Serving.readable res data ∧
    (retry_loop p target r a le s).1 = success used latency data.
Proof.
  induction r as [|r IH]; intros a le s; [discriminate|].
  rewrite retry_loop_S. cbv zeta.
  destruct (pick_frame PROXIES clock s) as (_ & Hf & _).
  set (used := or_null (pickNextProxy s).1).
  set (req := request_for p target used).
  set (s3 := with_effect _ _ _).
  assert (Hf3 : fetches s3 = S (fetches s)) by (rewrite <- Hf; reflexivity).
  destruct (settle_outcomes used a (clock (reads (pickNextProxy s).2))
              (retry_loop p target r (a + 1))
              (upstream (fetches (pickNextProxy s).2) req) s3)
    as [(res & data & Hans & Hok & Hdata & ->)
       |[(res & Hans & Hok & ->) | (le' & sX & HsX & ->)]].
  - intros _. exists (fetches s), used, res, data, (clock (reads s3) - clock (reads (pickNextProxy s).2)).
    rewrite Hf in Hans. cbn [fst snd]. split_and!; auto.
    change (fetches (now clock s3).2) with (fetches s3). lia.
  - cbn [fst snd upstream_error statusCode]. intros H200.
    unfold ok in Hok. rewrite H200 in Hok. discriminate.
  - intros H200.
    set (s5 := (sleep (backoff cfg a) (mark_if_used cfg clock used sX).2).2) in *.
    destruct (IH (a + 1) le' s5 H200)
      as (k & used' & res & data & latency & Hk & Hrest).
    exists k, used', res, data, latency. split; [|exact Hrest].
    assert (Hf5 : fetches s5 = S (fetches s)).
    { destruct (mark_if_used_frame used sX) as (_ & Hfm & _).
      change (fetches s5) with (fetches (mark_if_used cfg clock used sX).2).
      rewrite Hfm. destruct HsX as [->| ->]; exact Hf3. }
    lia.
Qed.

(** X15. Success is never made up: the handler answers 200 only to a
    relayed request, and only when one of the fetches of this very run was
    answered by a 2xx with a readable body; the 200 then carries that
    body's data.  In particular no upstream status other than 2xx, no
    rejection and no exhausted run is ever reported as a 200. *)
Theorem success_is_never_made_up event s :
  statusCode (handler event s).1 = 200 →
  ∃ p target (k : nat) used res data latency,
    relays event p target ∧
    (fetches s ≤ k < fetches (handler event s).2)%nat ∧
    upstream k (request_for p target used) = Resolved res ∧
    ok res = true ∧ Serving.readable res data ∧
    (handler event s).1 = success used latency data.
Proof.
  destruct (handler_cases event s) as [(p & target & Hev) | [Hno _]].
  - rewrite (handler_relays PROXIES cfg clock upstream _ _ _ s Hev).
    intros H200.
    destruct (retry_loop_200 p target _ 0 JNull s H200)
      as (k & used & res & data & latency & Hrest).
    exists p, target, k, used, res, data, latency. split; [exact Hev|exact Hrest].
  - intros H200. exfalso. revert H200 Hno. unfold Relay.handler, relays.
    destruct (String.eqb_spec (httpMethod event) "OPTIONS") as [Ho|Ho];
      [discriminate|].
    destruct (String.eqb_spec (httpMethod event) "POST") as [Hm|Hm];
      cbn [negb]; [|discriminate].
    destruct (event_body event) as [e|p]; [discriminate|].
    destruct (targetUrl p) as [[|c t]|] eqn:Ht; [discriminate| |discriminate].
    intros _ Hno. apply (Hno p (String c t)). split_and!; auto; discriminate.
Qed.

(** The records that a run changes belong to proxies it fetched through. *)
Lemma retry_loop_marks p target r : ∀ a le s,
  ∃ new,
    trace (retry_loop p target r a le s).2 = trace s ++ new ∧
    ∀ q, proxyHealth (retry_loop p target r a le s).2 !! q
           ≠ proxyHealth s !! q →
         Fetched (Some q) (request_for p target (Some q)) ∈ new.
Proof.
  induction r as [|r IH]; intros a le s.
  - exists []. simpl. rewrite app_nil_r. split; [reflexivity|].
    intros q Hq. contradiction.
  - rewrite retry_loop_S. cbv zeta.
    destruct (pick_frame PROXIES clock s) as (Hh & _ & Ht & _).
    set (used := or_null (pickNextProxy s).1).
    set (req := request_for p target used).
    set (s3 := with_effect _ _ _).
    assert (Ht3 : trace s3 = trace s ++ [Fetched used req])
      by (rewrite <- Ht; reflexivity).
    assert (Hh3 : proxyHealth s3 = proxyHealth s) by exact Hh.
    destruct (settle_cases used a (clock (reads (pickNextProxy s).2))
                (retry_loop p target r (a + 1))
                (upstream (fetches (pickNextProxy s).2) req) s3)
      as [[resp ->] | (le' & sX & HsX & ->)].
    + exists [Fetched used req]. split; [exact Ht3|].
      intros q Hq. exfalso. apply Hq. cbn [fst snd].
      exact (f_equal (λ h, h !! q) Hh3).
    + assert (HX : trace sX = trace s3 ∧ proxyHealth sX = proxyHealth s3)
        by (destruct HsX as [->| ->]; auto).
      destruct HX as (HtX & HhX).
      destruct (mark_if_used_frame used sX) as (Htm & _ & Hhm).
      set (s4 := (mark_if_used cfg clock used sX).2) in *.
      set (s5 := (sleep (backoff cfg a) s4).2).
      destruct (IH (a + 1) le' s5) as (new & Htr & Hmarks).
      exists (Fetched used req :: Slept (backoff cfg a) :: new). split.
      * rewrite Htr.
        change (trace s5) with (trace s4 ++ [Slept (backoff cfg a)]).
        rewrite Htm, HtX, Ht3, <- !app_assoc. reflexivity.
      * intros q Hq. destruct (decide (used = Some q)) as [Hu|Hu].
        -- unfold req. rewrite Hu. apply list_elem_of_here.
        -- do 2 apply list_elem_of_further. apply Hmarks.
           change (proxyHealth s5) with (proxyHealth s4).
           rewrite (Hhm q Hu), HhX, Hh3. exact Hq.
Qed.

(** X16. No proxy is marked down on suspicion: every record of the health
    map that an invocation creates or changes belongs to a proxy through
    which a fetch of that invocation went. *)
Theorem marked_proxies_were_used event s :
  ∃ new,
    trace (handler event s).2 = trace s ++ new ∧
    ∀ q, proxyHealth (handler event s).2 !! q ≠ proxyHealth s !! q →
         ∃ req, Fetched (Some q) req ∈ new ∧
                ∀ p target, relays event p target →
                            req = request_for p target (Some q).
Proof.
  destruct (handler_cases event s) as [(p & target & Hev) | [Hno Hs]].
  - rewrite (handler_relays PROXIES cfg clock upstream _ _ _ s Hev).
    destruct (retry_loop_marks p target (iterations (MAX_RETRIES cfg)) 0
                JNull s) as (new & Htr & Hmarks).
    exists new. split; [exact Htr|]. intros q Hq.
    exists (request_for p target (Some q)). split; [exact (Hmarks q Hq)|].
    intros p' target' (_ & Hb' & Ht' & _). destruct Hev as (_ & Hb & Ht & _).
    rewrite Hb in Hb'. injection Hb' as <-. rewrite Ht in Ht'.
    injection Ht' as <-. reflexivity.
  - exists []. rewrite Hs, app_nil_r. split; [reflexivity|].
    intros q Hq. contradiction.
Qed.

(** ** One request after the other *)

Lemma handle_many_cons event rest s :
  handle_many (event :: rest) s =
    ((handler event s).1 :: (handle_many rest (handler event s).2).1,
     (handle_many rest (handler event s).2).2).
Proof.
  simpl. unfold mbind, Gw_bind.
  destruct (handler event s) as [resp s1]. cbn [fst snd].
  destruct (Serving.handle_many PROXIES cfg clock upstream rest s1)
    as [resps s2].
  reflexivity.
Qed.

(** A relayed request whose next candidate is up and delivers. *)
Lemma handler_delivers event p target s c res data :
  relays event p target →
  (0 < iterations (MAX_RETRIES cfg))%nat →
  in_pool s → cand s 0 = Some c → c ≠ EmptyString →
  healthy_at (proxyHealth s) (clock (reads s)) c = true →
  upstream (fetches s) (request_for p target (Some c)) = Resolved res →
  ok res = true → Serving.readable res data →
  (∃ latency, (handler event s).1 = success (Some c) latency data) ∧
  in_pool (handler event s).2 ∧
  proxyIndex (handler event s).2 = (proxyIndex s + 1) `mod` n ∧
  proxyHealth (handler event s).2 = proxyHealth s ∧
  trace (handler event s).2 =
    trace s ++ [Fetched (Some c) (request_for p target (Some c))].
Proof.
  intros Hev Hit Hs Hc Hne Hup Hans Hok Hdata.
  rewrite (handler_relays PROXIES cfg clock upstream _ _ _ s Hev).
  destruct (iterations (MAX_RETRIES cfg)) as [|r]; [lia|].
  rewrite retry_loop_S. cbv zeta.
  destruct (pick_first_up PROXIES clock s c Hs Hc Hup) as (Hres & Hidx & Hh & _).
  destruct (pick_frame PROXIES clock s) as (_ & Hf & Ht & _).
  pose proof (pick_in_pool PROXIES clock s Hs) as Hs1.
  rewrite Hres.
  assert (Hused : or_null (Some c) = Some c) by (destruct c; [congruence | reflexivity]).
  rewrite Hused, Hf, Hans.
  rewrite (settle_readable _ _ _ _ _ data) by assumption. simpl.
  rewrite Hh, Ht, Hidx. split_and!; eauto.
Qed.

(** X17. The cursor outlives the invocation.  While no proxy of the pool
    has a record and every fetch is answered by a readable 2xx, requests
    served one after the other by the same instance go through the pool in
    its order, beginning just after the cursor and wrapping around: the
    [i]-th of them makes a single fetch, through candidate [i], and names
    it in a 200. *)
Theorem successive_requests_rotate events payloads s :
  Forall2 (λ event pt, relays event pt.1 pt.2) events payloads →
  (0 < iterations (MAX_RETRIES cfg))%nat →
  (0 < length PROXIES)%nat →
  in_pool s →
  (∀ q, q ∈ PROXIES → q ≠ EmptyString ∧ proxyHealth s !! q = None) →
  (∀ k req, ∃ res data, upstream k req = Resolved res ∧ ok res = true ∧
                        Serving.readable res data) →
  trace (handle_many events s).2 =
    trace s ++ imap (λ i pt, Fetched (cand s i)
                               (request_for pt.1 pt.2 (cand s i))) payloads ∧
  length (handle_many events s).1 = length events ∧
  (∀ i resp, (handle_many events s).1 !! i = Some resp →
     ∃ latency data, resp = success (cand s i) latency data) ∧
  proxyHealth (handle_many events s).2 = proxyHealth s.
Proof.
  intros Hevs Hit Hn. revert s.
  induction Hevs as [|event [p target] events payloads Hev Hevs IH];
    intros s Hs Hpool Hup.
  - simpl. rewrite app_nil_r. split_and!; auto. intros i resp Hi. inversion Hi.
  - simpl in Hev. rewrite handle_many_cons. cbn [fst snd].
    destruct (cand_in_pool PROXIES s 0 Hs Hn) as (c & Hc & Hin).
    destruct (Hpool c Hin) as [Hne Hrec].
    destruct (Hup (fetches s) (request_for p target (Some c)))
      as (res & data & Hans & Hok & Hdata).
    assert (Hhealthy : healthy_at (proxyHealth s) (clock (reads s)) c = true)
      by (unfold healthy_at; rewrite Hrec; reflexivity).
    destruct (handler_delivers event p target s c res data Hev Hit Hs Hc Hne
                Hhealthy Hans Hok Hdata)
      as ((latency & Hresp) & Hs' & Hidx & Hh & Ht).
    set (s' := (handler event s).2) in *.
    assert (Hshift : ∀ o, cand s' o = cand s (S o)).
    { intros o. apply (cand_shift PROXIES s s' 1 Hs Hn). exact Hidx. }
    destruct (IH s' Hs') as (Htr & Hlen & Hresps & Hh').
    { intros q Hq. rewrite Hh. apply Hpool, Hq. }
    { exact Hup. }
    split_and!.
    + rewrite Htr, Ht, <- app_assoc. f_equal. simpl. rewrite Hc. f_equal.
      apply imap_ext. intros i pt _. simpl. rewrite Hshift. reflexivity.
    + simpl. rewrite Hlen. reflexivity.
    + intros [|i] resp Hi.
      * injection Hi as <-. rewrite Hc. eauto.
      * simpl in Hi. destruct (Hresps i resp Hi) as (l & d & ->).
        rewrite Hshift. eauto.
    + rewrite Hh', Hh. reflexivity.
Qed.

End ServingTheory.

(** * More statements at concrete inputs *)

Lemma two_proxies_clean : Forall Loading.clean two_proxies.
Proof. repeat constructor. Defined.

Lemma chat_event_accepted : Legacy.accepted chat_event chat_history.
Proof. repeat split. Defined.

Lemma first_down_in_pool : in_pool two_proxies first_down.
Proof. unfold in_pool. simpl. lia. Defined.

Lemma csv_pool_entries_clean_witness :
  Loading.csv_pool csv_setting = Some two_proxies ∧
  Forall Loading.clean two_proxies.
Proof.
  split; [reflexivity|].
  apply (csv_pool_entries_clean csv_setting two_proxies). reflexivity.
Defined.

Lemma csv_pool_round_trip_witness :
  Loading.csv_pool "https://a.example/,https://b.example/?u=" =
    Some two_proxies.
Proof. apply (csv_pool_round_trip two_proxies), two_proxies_clean. Defined.

(** [PROXIES] set to a text that is not JSON. *)
Lemma loaded_pool_is_usable_witness :
  Loading.load_proxies (Some csv_setting) Loading.Throws = Some two_proxies ∧
  two_proxies ≠ [] ∧ EmptyString ∉ two_proxies.
Proof.
  split; [reflexivity|].
  destruct (loaded_pool_is_usable (Some csv_setting) Loading.Throws
              two_proxies eq_refl) as (Hne & _ & Hclean).
  split; [exact Hne|]. apply Hclean. intros items. discriminate.
Defined.

(** A 503 from the upstream is answered with the bare 500. *)
Lemma legacy_failure_is_opaque_witness :
  (Legacy.handler Legacy.PROXIES (always busy) chat_event
     Legacy.initial_state).1 = Legacy.failed ∧
  Legacy.fetches (Legacy.handler Legacy.PROXIES (always busy) chat_event
                    Legacy.initial_state).2 = 1%nat.
Proof.
  apply (legacy_failure_is_opaque Legacy.PROXIES (always busy) chat_event
           chat_history Legacy.initial_state chat_event_accepted).
  intros (data & response & Hans & Hok & _).
  injection Hans as <-. discriminate Hok.
Defined.

Lemma legacy_success_iff_witness :
  (Legacy.handler Legacy.PROXIES (always answer) chat_event
     Legacy.initial_state).1 =
    {| statusCode := 200;
       headers := [ ("Access-Control-Allow-Origin", "*");
                    ("Content-Type", "application/json") ]%string;
       body := JsonBody (JArray [ JNumber 1; JNumber 2 ]) |}.
Proof.
  destruct (legacy_success_iff Legacy.PROXIES (always answer) chat_event
              Legacy.initial_state) as (Hyes & _ & _).
  apply (Hyes chat_history (JArray [ JNumber 1; JNumber 2 ])).
  - apply chat_event_accepted.
  - exists answer. split_and!; reflexivity.
Defined.

(** Three requests over two proxies leave the cursor on the second. *)
Lemma legacy_round_robin_witness :
  Legacy.proxyIndex
    (Legacy.handle_many two_proxies (always answer)
       [ chat_event; chat_event; chat_event ] Legacy.initial_state).2 = Num 1.
Proof.
  destruct (legacy_round_robin two_proxies (always answer)
              [ chat_event; chat_event; chat_event ] Legacy.initial_state 0)
    as [Hidx _].
  - reflexivity.
  - simpl. lia.
  - repeat constructor; exists chat_history; apply chat_event_accepted.
  - exact Hidx.
Defined.

(** With the first proxy down the search finds the second. *)
Lemma pick_is_first_healthy_witness :
  (pickNextProxy two_proxies frozen first_down).1 =
    Some "https://b.example/?u="%string.
Proof.
  transitivity (List.find (healthy_at (proxyHealth first_down) 1700000000000)
                  (rotation two_proxies first_down)).
  - apply (pick_is_first_healthy two_proxies frozen 1700000000000 first_down).
    + apply first_down_in_pool.
    + intros j _. reflexivity.
  - vm_compute. reflexivity.
Defined.

Lemma pick_result_is_sound_witness :
  in_pool two_proxies (pickNextProxy two_proxies frozen first_down).2 ∧
  proxyHealth (pickNextProxy two_proxies frozen first_down).2 =
    proxyHealth first_down.
Proof.
  destruct (pick_result_is_sound two_proxies frozen first_down
              first_down_in_pool) as (Hin & Hh & _).
  split; [exact Hin | exact Hh].
Defined.

Lemma attempts_are_bounded_witness :
  (fetches (handler DEFAULT_PROXIES default_config tick unreachable
              relay_event initial_state).2 ≤ 4)%nat ∧
  (handler DEFAULT_PROXIES default_config tick unreachable get_event
     initial_state).2 = initial_state.
Proof.
  split.
  - destruct (attempts_are_bounded DEFAULT_PROXIES default_config tick
                unreachable relay_event initial_state) as ([_ Hle] & _).
    exact Hle.
  - destruct (attempts_are_bounded DEFAULT_PROXIES default_config tick
                unreachable get_event initial_state) as (_ & _ & Hsame).
    apply Hsame. intros p target (Hm & _). discriminate Hm.
Defined.

(** With the built-in settings and pool: every fetch of a run of 503s
    goes to a proxy followed by the target, or to the target, as a POST
    without headers or body, and every wait is [400 * 2^attempt]. *)
Lemma fetches_go_to_target_or_pool_witness :
  ∃ new,
    trace (handler DEFAULT_PROXIES default_config tick (always busy)
             relay_event initial_state).2 = trace initial_state ++ new ∧
    Forall
      (λ e,
         match e with
         | Fetched used req =>
             req =
               {| url := match used with
                         | Some proxy => proxy +:+ "https://api.example/v1"
                         | None => "https://api.example/v1"
                         end;
                  fetch_method := "POST";
                  fetch_headers := [];
                  fetch_body := Passed None |}
         | Slept ms =>
             ∃ attempt, 0 ≤ attempt < 4 ∧ ms = Num (400 * 2 ^ attempt)
         end) new.
Proof.
  destruct (fetches_go_to_target_or_pool DEFAULT_PROXIES default_config tick
              (always busy) relay_event relay_payload "https://api.example/v1"
              initial_state relay_event_relays) as (new & Htr & Hall).
  exists new. split; [exact Htr|].
  eapply Forall_impl; [exact Hall|].
  intros [used req|ms]; [intros [He _]; exact He | intros He; exact He].
Defined.

Lemma only_pool_members_are_marked_witness :
  proxyHealth (handler DEFAULT_PROXIES default_config tick (always busy)
                 relay_event initial_state).2
    !! "https://elsewhere.example/"%string = None.
Proof.
  rewrite (only_pool_members_are_marked DEFAULT_PROXIES default_config tick
             (always busy) relay_event initial_state
             "https://elsewhere.example/").
  - reflexivity.
  - apply (bool_decide_unpack _). vm_compute. exact I.
Defined.

Lemma readable_answer_is_relayed_witness :
  (handler DEFAULT_PROXIES default_config tick (always answer) relay_event
     initial_state).1 =
    success (Some "https://cors.bridged.cc/"%string) 1
      (JArray [ JNumber 1; JNumber 2 ]) ∧
  proxyHealth (handler DEFAULT_PROXIES default_config tick (always answer)
                 relay_event initial_state).2 = ∅.
Proof.
  destruct (readable_answer_is_relayed DEFAULT_PROXIES default_config tick
              (always answer) relay_event relay_payload
              "https://api.example/v1" initial_state answer
              (JArray [ JNumber 1; JNumber 2 ]))
    as (Hresp & _ & Hh & _).
  - apply relay_event_relays.
  - simpl. lia.
  - reflexivity.
  - reflexivity.
  - reflexivity.
  - rewrite Hresp, Hh. split; reflexivity.
Defined.

(** Four attempts, and waits of 400, 800, 1600 and 3200 milliseconds. *)
Lemma undelivered_run_waits_in_full_witness :
  ∃ new,
    trace (handler DEFAULT_PROXIES default_config tick unreachable
             relay_event initial_state).2 = new ∧
    length (List.filter Serving.is_fetch new) = 4%nat ∧
    Serving.total_wait new = Num 6000 ∧
    statusCode (handler DEFAULT_PROXIES default_config tick unreachable
                  relay_event initial_state).1 = 502.
Proof.
  destruct (undelivered_run_waits_in_full DEFAULT_PROXIES default_config tick
              unreachable relay_event relay_payload "https://api.example/v1"
              initial_state 400)
    as (new & le & Htr & Hlen & Hwait & Hresp & _).
  - apply relay_event_relays.
  - reflexivity.
  - intros k req. exists "timeout"%string. reflexivity.
  - exists new. rewrite Hresp. split_and!.
    + exact Htr.
    + exact Hlen.
    + exact Hwait.
    + reflexivity.
Defined.

(** The only proxy is down: the 503 of the direct fetch is final. *)
Lemma all_down_goes_direct_witness :
  statusCode (handler single_pool default_config tick (always busy)
                relay_event single_down).1 = 503 ∧
  proxyHealth (handler single_pool default_config tick (always busy)
                 relay_event single_down).2 = proxyHealth single_down.
Proof.
  destruct (all_down_goes_direct single_pool default_config tick (always busy)
              relay_event relay_payload "https://api.example/v1" single_down)
    as (_ & _ & Hfinal).
  - apply relay_event_relays.
  - simpl. lia.
  - apply single_down_in_pool.
  - intros q j Hq Hj. apply list_elem_of_singleton in Hq as ->.
    assert (j = 1%nat) as -> by (simpl in Hj; lia).
    vm_compute. reflexivity.
  - destruct (Hfinal busy eq_refl eq_refl) as (Hresp & _ & Hh).
    rewrite Hresp. split; [reflexivity | exact Hh].
Defined.

Lemma success_is_never_made_up_witness :
  ∃ p target (k : nat) used res data latency,
    relays relay_event p target ∧
    (fetches initial_state ≤ k
     < fetches (handler DEFAULT_PROXIES default_config tick (always answer)
                  relay_event initial_state).2)%nat ∧
    always answer k (request_for p target used) = Resolved res ∧
    ok res = true ∧ Serving.readable res data ∧
    (handler DEFAULT_PROXIES default_config tick (always answer) relay_event
       initial_state).1 = success used latency data.
Proof.
  exact (success_is_never_made_up DEFAULT_PROXIES default_config tick
           (always answer) relay_event initial_state eq_refl).
Defined.

(** The proxy marked down by a run of failures was fetched through. *)
Lemma marked_proxies_were_used_witness :
  ∃ req,
    Fetched (Some "https://cors.bridged.cc/"%string) req
      ∈ trace (handler DEFAULT_PROXIES default_config tick (always busy)
                 relay_event initial_state).2.
Proof.
  destruct (marked_proxies_were_used DEFAULT_PROXIES default_config tick
              (always busy) relay_event initial_state)
    as (new & Htr & Hmarks).
  destruct (Hmarks "https://cors.bridged.cc/"%string) as (req & Hin & _).
  - vm_compute. discriminate.
  - exists req. rewrite Htr. apply elem_of_app. right. exact Hin.
Defined.

(** Three requests over two proxies: first, second, first again. *)
Lemma successive_requests_rotate_witness :
  trace (Serving.handle_many two_proxies default_config tick (always answer)
           [ relay_event; relay_event; relay_event ] initial_state).2 =
    [ Fetched (Some "https://a.example/"%string)
        (request_for relay_payload "https://api.example/v1"
           (Some "https://a.example/"%string));
      Fetched (Some "https://b.example/?u="%string)
        (request_for relay_payload "https://api.example/v1"
           (Some "https://b.example/?u="%string));
      Fetched (Some "https://a.example/"%string)
        (request_for relay_payload "https://api.example/v1"
           (Some "https://a.example/"%string)) ].
Proof.
  destruct (successive_requests_rotate two_proxies default_config tick
              (always answer) [ relay_event; relay_event; relay_event ]
              [ (relay_payload, "https://api.example/v1"%string);
                (relay_payload, "https://api.example/v1"%string);
                (relay_payload, "https://api.example/v1"%string) ]
              initial_state)
    as (Htr & _).
  - repeat constructor; apply relay_event_relays.
  - simpl. lia.
  - simpl. lia.
  - apply initial_in_pool.
  - intros q Hq. split; [|apply lookup_empty].
    intros ->. revert Hq. apply (bool_decide_unpack _). vm_compute. exact I.
  - intros k req. exists answer, (JArray [ JNumber 1; JNumber 2 ]).
    split_and!; reflexivity.
  - rewrite Htr. reflexivity.
Defined.
